(** * finite-mdp: a shallow embedding of [finite_mdp/envs/finite_mdp.py]

    The development follows the Python module top to bottom:
    - the numbers and nested sequences a configuration is made of,
    - the part of numpy the module calls ([np.array], [tolist], [np.shape],
      [np.size], [np.zeros], integer indexing, item assignment),
    - the random source ([RandomState.rand], [RandomState.choice]) over an
      abstract generator,
    - the classes [MDP], [DeterministicMDP], [StochasticMDP] and [FiniteMDP],
    - the properties of the specification, one theorem each.

    Python objects are mutable and methods may raise after having assigned
    some attribute, so methods are computations in a state-and-exception
    monad whose state survives a raise. *)

From Stdlib Require Import ZArith QArith Qround Qabs Lqa String.
From stdpp Require Import base option list gmap strings.

Set Default Proof Using "Type".
#[local] Set Warnings "-register-all".

(* ------------------------------------------------------------------ *)
(** * Exceptions and the two monads *)

Inductive exn : Type :=
  | IndexError (msg : string)
  | ValueError (msg : string)
  | TypeError (msg : string)
  | AttributeError (msg : string).

Inductive res (A : Type) : Type :=
  | Ok (a : A)
  | Raise (e : exn).

Arguments Ok {A} a.

Arguments Raise {A} e.

#[global] Instance res_ret : MRet res := λ A a, Ok a.

#[global] Instance res_bind : MBind res := λ A B f c,
  match c with
  | Ok a => f a
  | Raise e => Raise e
  end.

(** A method of an object of type [W]: it leaves a result or an exception,
    and the object as it is at that moment. *)
Definition M (W A : Type) : Type := W → res A * W.

#[global] Instance M_ret {W} : MRet (M W) := λ A a w, (Ok a, w).

#[global] Instance M_bind {W} : MBind (M W) := λ A B f c w,
  match c w with
  | (Ok a, w') => f a w'
  | (Raise e, w') => (Raise e, w')
  end.

Definition raise {W A} (e : exn) : M W A := λ w, (Raise e, w).

Definition liftR {W A} (r : res A) : M W A := λ w, (r, w).

Definition get {W} : M W W := λ w, (Ok w, w).

Definition gets {W A} (f : W → A) : M W A := λ w, (Ok (f w), w).

Definition modify {W} (f : W → W) : M W unit := λ w, (Ok (), f w).

(** Run a computation on one component of the state. *)
Definition zoom {W V A} (rd : W → V) (wr : V → W → W) (c : M V A) : M W A :=
  λ w, match c (rd w) with (r, v') => (r, wr v' w) end.

(* ------------------------------------------------------------------ *)
(** * Numbers

    A table entry is a Python or numpy number: a boolean, an integer or a
    float.  A float64 is represented by the rational it denotes; the module
    does no arithmetic on table entries, it only stores, converts and
    compares them. *)

Inductive scalar : Type :=
  | SBool (b : bool)
  | SInt (z : Z)
  | SFloat (q : Q).

Definition value (x : scalar) : Q :=
  match x with
  | SBool b => if b then 1%Q else 0%Q
  | SInt z => inject_Z z
  | SFloat q => q
  end.

(** Python's [==] on numbers compares values across the three types. *)
Definition scalar_eqv (x y : scalar) : Prop := (value x == value y)%Q.

Definition nonzero (x : scalar) : bool := negb (Qeq_bool (value x) 0).

(** [int(x)]: truncation towards zero. *)
Definition Qtrunc (q : Q) : Z :=
  if Qle_bool 0 q then Qfloor q else Qceiling q.

Definition as_int (x : scalar) : Z :=
  match x with
  | SBool b => if b then 1%Z else 0%Z
  | SInt z => z
  | SFloat q => Qtrunc q
  end.

(** int64 to float64: exact up to 2^53, beyond that the nearest float with
    a 53-bit significand, ties to even. *)
Definition round53 (z : Z) : Z :=
  let a := Z.abs z in
  if (a <=? 2 ^ 53)%Z then z
  else
    let e := (Z.log2 a - 52)%Z in
    let q := (a / 2 ^ e)%Z in
    let r := (a mod 2 ^ e)%Z in
    let half := (2 ^ (e - 1))%Z in
    let q' := if (r <? half)%Z then q
              else if (half <? r)%Z then (q + 1)%Z
              else if Z.even q then q else (q + 1)%Z in
    (Z.sgn z * (q' * 2 ^ e))%Z.

Definition float_of_int (z : Z) : Q := inject_Z (round53 z).

Inductive kind : Type := KBool | KInt | KFloat.

Definition kind_of (x : scalar) : kind :=
  match x with SBool _ => KBool | SInt _ => KInt | SFloat _ => KFloat end.

Definition kind_max (k1 k2 : kind) : kind :=
  match k1, k2 with
  | KFloat, _ | _, KFloat => KFloat
  | KInt, _ | _, KInt => KInt
  | KBool, KBool => KBool
  end.

(** The common dtype numpy finds for a sequence of numbers. *)
Definition result_kind (l : list scalar) : kind :=
  foldr (λ x k, kind_max (kind_of x) k) KBool l.

(** [astype]. *)
Definition cast (k : kind) (x : scalar) : scalar :=
  match k with
  | KBool => SBool (nonzero x)
  | KInt => SInt (as_int x)
  | KFloat => SFloat match x with
                     | SFloat q => q
                     | _ => float_of_int (as_int x)
                     end
  end.

(* ------------------------------------------------------------------ *)
(** * Python values of a configuration *)

Inductive pyval : Type :=
  | PNone
  | PNum (x : scalar)
  | PStr (s : string)
  | PList (l : list pyval).

Definition PBool (b : bool) : pyval := PNum (SBool b).

Definition PInt (z : Z) : pyval := PNum (SInt z).

Definition PFloat (q : Q) : pyval := PNum (SFloat q).

(** Truth value of a Python object. *)
Definition truthy (v : pyval) : bool :=
  match v with
  | PNone => false
  | PNum x => nonzero x
  | PStr s => negb (String.eqb s "")
  | PList l => match l with [] => false | _ => true end
  end.

(** [v == s] for a string literal [s]. *)
Definition is_str (s : string) (v : pyval) : bool :=
  match v with
  | PStr s' => String.eqb s s'
  | _ => false
  end.

(** Python's [==] on the values above: numbers by value, lists
    elementwise. *)
Inductive pyval_eqv : pyval → pyval → Prop :=
  | eqv_none : pyval_eqv PNone PNone
  | eqv_num x y : scalar_eqv x y → pyval_eqv (PNum x) (PNum y)
  | eqv_str s : pyval_eqv (PStr s) (PStr s)
  | eqv_list l1 l2 : Forall2 pyval_eqv l1 l2 → pyval_eqv (PList l1) (PList l2).

(** A configuration is a [dict] with string keys. *)
Abbreviation Config := (gmap string pyval).

(** [c.get(k, d)] *)
Definition dict_get (k : string) (d : pyval) (c : Config) : pyval :=
  default d (c !! k).

(** [c1 == c2] on dicts: the same keys, equal values. *)
Definition config_eqv (c1 c2 : Config) : Prop :=
  ∀ k, option_Forall2 pyval_eqv (c1 !! k) (c2 !! k).

(* ------------------------------------------------------------------ *)
(** * numpy arrays

    An array is its shape and its entries in row-major order.  A numpy
    scalar is the array of shape [()].  All entries of an array have one
    dtype; it is the [kind_of] of the entries, not a field of its own. *)

Record ndarray : Type := mk_ndarray { shape : list nat; data : list scalar }.

Definition product (sh : list nat) : nat := foldr Nat.mul 1 sh.

Definition np_shape (a : ndarray) : list nat := shape a.

Definition np_size (a : ndarray) : nat := product (shape a).

Definition scalar_array (x : scalar) : ndarray := mk_ndarray [] [x].

(** [np.zeros(sh)]: float64 zeros. *)
Definition np_zeros (sh : list nat) : ndarray :=
  mk_ndarray sh (replicate (product sh) (SFloat 0)).

(** [t[i]] on the shape tuple. *)
Definition shape_at (a : ndarray) (i : nat) : res nat :=
  match shape a !! i with
  | Some n => Ok n
  | None => Raise (IndexError "tuple index out of range")
  end.

(** The shape [np.array] discovers: it follows the first element down. *)
Fixpoint shape_of (v : pyval) : list nat :=
  match v with
  | PList l => length l :: match l with
                           | x :: _ => shape_of x
                           | [] => []
                           end
  | _ => []
  end.

(** The numbers of [v] in row-major order, when [v] has shape [sh]. *)
Fixpoint leaves (sh : list nat) (v : pyval) : option (list scalar) :=
  match sh, v with
  | [], PNum x => Some [x]
  | n :: sh', PList l =>
      if decide (length l = n) then mjoin <$> mapM (leaves sh') l else None
  | _, _ => None
  end.

(** [np.array(v)] for a number or a nested sequence of numbers.  A ragged
    sequence is refused as numpy does since 1.24; values that are not
    numeric arrays (None, strings) are outside the embedding and refused
    the same way. *)
Definition np_array (v : pyval) : res ndarray :=
  match leaves (shape_of v) v with
  | Some d => Ok (mk_ndarray (shape_of v) (cast (result_kind d) <$> d))
  | None => Raise (ValueError "setting an array element with a sequence")
  end.

(** [a.tolist()] *)
Fixpoint unflatten (sh : list nat) (d : list scalar) : pyval :=
  match sh with
  | [] => match d with x :: _ => PNum x | [] => PNone end
  | n :: sh' =>
      let k := product sh' in
      PList ((λ i, unflatten sh' (take k (drop (i * k) d))) <$> seq 0 n)
  end.

Definition tolist (a : ndarray) : pyval := unflatten (shape a) (data a).

(** An index into an axis of length [n]; negative indices count from the
    end. *)
Definition norm_index (n : nat) (i : Z) : res nat :=
  if bool_decide (0 ≤ i < Z.of_nat n)%Z then Ok (Z.to_nat i)
  else if bool_decide (- Z.of_nat n ≤ i < 0)%Z then Ok (Z.to_nat (i + Z.of_nat n))
  else Raise (IndexError "index out of bounds").

(** [a[i1, ..., ik]] with integer indices: the sub-array at that place. *)
Fixpoint getitem_at (sh : list nat) (d : list scalar) (ix : list Z) : res ndarray :=
  match ix with
  | [] => Ok (mk_ndarray sh d)
  | i :: ix' =>
      match sh with
      | [] => Raise (IndexError "too many indices for array")
      | n :: sh' =>
          j ← norm_index n i;
          let k := product sh' in
          getitem_at sh' (take k (drop (j * k) d)) ix'
      end
  end.

Definition getitem (a : ndarray) (ix : list Z) : res ndarray :=
  getitem_at (shape a) (data a) ix.

(** The row-major offset of a full index. *)
Fixpoint offset (sh : list nat) (ix : list Z) : res nat :=
  match sh, ix with
  | [], [] => Ok 0
  | n :: sh', i :: ix' =>
      j ← norm_index n i;
      o ← offset sh' ix';
      Ok (j * product sh' + o)
  | [], _ :: _ => Raise (IndexError "too many indices for array")
  | _ :: _, [] => Raise (ValueError "setting an array element with a sequence")
  end.

(** [a[i1, ..., in] = x] for a full index, the only form the module uses;
    the caller passes [x] in the array's dtype. *)
Definition setitem (a : ndarray) (ix : list Z) (x : scalar) : res ndarray :=
  o ← offset (shape a) ix;
  Ok (mk_ndarray (shape a) (<[o := x]> (data a))).

(** An array used as an index.  The embedding covers the integer scalar,
    which names one entry, and the float, which numpy refuses with
    IndexError.  A boolean or an array index makes numpy select by mask or
    by position list; that is outside the embedding, which refuses it, so
    a statement on the outcome of an indexing fixes an integer state. *)
Definition index_of (a : ndarray) : res Z :=
  match shape a, data a with
  | [], [SInt z] => Ok z
  | _, _ => Raise (IndexError "only integers are valid indices")
  end.

(** [int(a)] *)
Definition py_int (a : ndarray) : res Z :=
  match data a with
  | [x] => Ok (as_int x)
  | _ => Raise (TypeError "only size-1 arrays can be converted to Python scalars")
  end.

(** [bool(a)]: defined for an array of one element (an empty array is
    refused too, as numpy does since 2.2). *)
Definition truth (a : ndarray) : res bool :=
  match data a with
  | [x] => Ok (nonzero x)
  | _ => Raise (ValueError "the truth value of an array is ambiguous")
  end.

(** [a or b] for an array [a] and a Python bool [b]: [a] itself when it
    is true, [b] otherwise. *)
Definition py_or (a : ndarray) (b : bool) : res ndarray :=
  match truth a with
  | Ok true => Ok a
  | Ok false => Ok (scalar_array (SBool b))
  | Raise e => Raise e
  end.

(* ------------------------------------------------------------------ *)
(** * The random source

    [np_random] is a numpy [RandomState].  Its generator is abstract: a
    state with two primitive draws, a uniform float in [[0,1)] and a uniform
    integer below a bound.  [rand] and [choice] are numpy's algorithms over
    these draws. *)

Class RandomSource (G : Type) : Type := {
  random_sample : G → Q * G;
  randint : nat → G → nat * G;
  random_sample_range g :
    (0 <= (random_sample g).1)%Q ∧ ((random_sample g).1 < 1)%Q;
  randint_range n g : 0 < n → (randint n g).1 < n
}.

Fixpoint draws {G A} (f : G → A * G) (n : nat) (g : G) : list A * G :=
  match n with
  | 0 => ([], g)
  | S n' =>
      let '(x, g1) := f g in
      let '(xs, g2) := draws f n' g1 in
      (x :: xs, g2)
  end.

(** Running sums, [p.cumsum()]. *)
Fixpoint cumsum_from (acc : Q) (p : list Q) : list Q :=
  match p with
  | [] => []
  | x :: p' => (acc + x)%Q :: cumsum_from (acc + x)%Q p'
  end.

Definition cumsum (p : list Q) : list Q := cumsum_from 0 p.

Definition Qsum (p : list Q) : Q := foldr Qplus 0%Q p.

(** [cdf.searchsorted(u, side='right')] on a non-decreasing [cdf]: the
    number of entries not above [u]. *)
Definition searchsorted_right (cdf : list Q) (u : Q) : nat :=
  length (filter (λ c, Is_true (Qle_bool c u)) cdf).

(** The tolerance of [choice] on the sum of [p]: the square root of the
    float64 epsilon, 2^-26. *)
Definition choice_atol : Q := 1 # (2 ^ 26).

Section Random.
Context {G : Type} `{RandomSource G}.

(** [np_random.rand(d0, ..., dk)] for [sh = (d0, ..., dk)] *)
Definition rng_rand (sh : list nat) : M G ndarray := λ g,
  let '(xs, g') := draws random_sample (product sh) g in
  (Ok (mk_ndarray sh (SFloat <$> xs)), g').

(** [np_random.choice(range(n), size=sh)] *)
Definition rng_choice_range (n : nat) (sh : list nat) : M G ndarray := λ g,
  if bool_decide (n = 0 ∧ product sh ≠ 0)
  then (Raise (ValueError "'a' cannot be empty unless no samples are taken"), g)
  else
    let '(xs, g') := draws (randint n) (product sh) g in
    (Ok (mk_ndarray sh ((λ i, SInt (Z.of_nat i)) <$> xs)), g').

(** [np_random.choice(np.arange(n), p=p)]: one sample by inversion of
    the cumulative distribution.  The sum and the running sums are those
    of the rationals; they are numpy's float64 sums on the rows whose
    float64 sums are exact, such as the one-hot rows and the rows of
    [float_exact_row] below. *)
Definition rng_choice_p (n : nat) (p : ndarray) : M G ndarray := λ g,
  let pv := value <$> data p in
  if bool_decide (n = 0)
  then (Raise (ValueError "'a' cannot be empty unless no samples are taken"), g)
  else if bool_decide (length (shape p) ≠ 1)
  then (Raise (ValueError "'p' must be 1-dimensional"), g)
  else if bool_decide (np_size p ≠ n)
  then (Raise (ValueError "'a' and 'p' must have same size"), g)
  else if existsb (λ x, negb (Qle_bool 0 x)) pv
  then (Raise (ValueError "probabilities are not non-negative"), g)
  else if negb (Qle_bool (Qabs (Qsum pv - 1)) choice_atol)
  then (Raise (ValueError "probabilities do not sum to 1"), g)
  else
    let cdf := cumsum pv in
    let cdf := (λ c, c / List.last cdf 0)%Q <$> cdf in
    let '(u, g') := random_sample g in
    let idx := searchsorted_right cdf u in
    if bool_decide (idx < n)
    then (Ok (scalar_array (SInt (Z.of_nat idx))), g')
    else (Raise (IndexError "index out of bounds"), g').

End Random.

(* ------------------------------------------------------------------ *)
(** * class MDP and its two subclasses

    [cls] is the class of the object; it decides which [step],
    [randomize] and [to_config] a call reaches.  [state] is a Python int
    or a numpy scalar, both kept as an array of shape [()]. *)

Inductive variant : Type := Deterministic | Stochastic.

Record MDP : Type := mk_MDP {
  cls : variant;
  state : ndarray;
  transition : ndarray;
  reward : ndarray;
  terminal : ndarray
}.

Definition set_state (x : ndarray) (self : MDP) : MDP :=
  mk_MDP (cls self) x (transition self) (reward self) (terminal self).

Definition set_transition (x : ndarray) (self : MDP) : MDP :=
  mk_MDP (cls self) (state self) x (reward self) (terminal self).

Definition set_reward (x : ndarray) (self : MDP) : MDP :=
  mk_MDP (cls self) (state self) (transition self) x (terminal self).

Definition set_terminal (x : ndarray) (self : MDP) : MDP :=
  mk_MDP (cls self) (state self) (transition self) (reward self) x.

(** What [step] returns: [(state, reward, done, info)]. *)
Definition step_result : Type := ndarray * ndarray * ndarray * Config.

(** [MDP.reset] *)
Definition MDP_reset : M MDP ndarray :=
  modify (set_state (scalar_array (SInt 0)));;
  gets state.

(** [DeterministicMDP.__init__], run for an object of class [c];
    [MDP.__init__] has set [state = 0] before. *)
Definition DeterministicMDP__init__ (c : variant)
    (transition reward : ndarray) (terminal : option ndarray) : res MDP :=
  terminal' ← match terminal with
              | Some t =>
                  if bool_decide (np_size t = 0)
                  then n ← shape_at transition 0; Ok (np_zeros [n])
                  else Ok t
              | None => n ← shape_at transition 0; Ok (np_zeros [n])
              end;
  Ok (mk_MDP c (scalar_array (SInt 0)) transition reward terminal').

Definition DeterministicMDP (transition reward : ndarray) (terminal : option ndarray) : res MDP :=
  DeterministicMDP__init__ Deterministic transition reward terminal.

(** [StochasticMDP.__init__] only calls the parent's. *)
Definition StochasticMDP (transition reward : ndarray) (terminal : option ndarray) : res MDP :=
  DeterministicMDP__init__ Stochastic transition reward terminal.

(** [DeterministicMDP.to_config] *)
Definition DeterministicMDP_to_config (self : MDP) : Config :=
  <["mode" := PStr "deterministic"]>
  (<["transition" := tolist (transition self)]>
  (<["reward" := tolist (reward self)]>
  (<["terminal" := tolist (terminal self)]> ∅))).

(** [StochasticMDP.to_config] *)
Definition StochasticMDP_to_config (self : MDP) : Config :=
  let config := DeterministicMDP_to_config self in
  <["mode" := PStr "stochastic"]> config.

Definition to_config (self : MDP) : Config :=
  match cls self with
  | Deterministic => DeterministicMDP_to_config self
  | Stochastic => StochasticMDP_to_config self
  end.

(** [DeterministicMDP.update], inherited by [StochasticMDP]. *)
Definition update (config : Config) : M MDP unit :=
  match config !! "transition" with
  | Some v => t ← liftR (np_array v); modify (set_transition t)
  | None => mret ()
  end;;
  match config !! "reward" with
  | Some v => r ← liftR (np_array v); modify (set_reward r)
  | None => mret ()
  end;;
  match config !! "terminal" with
  | Some v => t ← liftR (np_array v); modify (set_terminal t)
  | None => mret ()
  end.

(** A [for] loop over [l] whose body may raise; [acc] is what the body
    assigns to. *)
Fixpoint for_each {A B} (l : list A) (body : A → B → res B) (acc : B) : res B :=
  match l with
  | [] => Ok acc
  | x :: l' => acc' ← body x acc; for_each l' body acc'
  end.

(** [StochasticMDP.from_deterministic]; [new_transition] is float64, so
    the 1 it is assigned is stored as 1.0. *)
Definition from_deterministic (mdp : MDP) : res MDP :=
  n0 ← shape_at (transition mdp) 0;
  n1 ← shape_at (transition mdp) 1;
  let new_transition := np_zeros [n0; n1; n0] in
  new_transition ←
    for_each (seq 0 n0) (λ s,
      for_each (seq 0 n1) (λ a new_transition,
        x ← getitem (transition mdp) [Z.of_nat s; Z.of_nat a];
        i ← py_int x;
        setitem new_transition [Z.of_nat s; Z.of_nat a; i] (SFloat 1)))
      new_transition;
  StochasticMDP new_transition (reward mdp) (Some (terminal mdp)).

Section Methods.
Context {G : Type} `{RandomSource G}.

(** A call on [np_random] from a method that holds [self] and
    [np_random]. *)
Definition on_rng {A} (c : M G A) : M (MDP * G) A :=
  zoom snd (λ g w, (w.1, g)) c.

Definition on_self {A} (c : M MDP A) : M (MDP * G) A :=
  zoom fst (λ m w, (m, w.2)) c.

(** [DeterministicMDP.step] *)
Definition DeterministicMDP_step (action : Z) : M (MDP * G) step_result :=
  self ← gets fst;
  s ← liftR (index_of (state self));
  reward ← liftR (getitem (reward self) [s; action]);
  done ← liftR (getitem (terminal self) [s]);
  next ← liftR (getitem (transition self) [s; action]);
  on_self (modify (set_state next));;
  self ← gets fst;
  mret (state self, reward, done, to_config self).

(** [DeterministicMDP.randomize] *)
Definition DeterministicMDP_randomize : M (MDP * G) unit :=
  self ← gets fst;
  n ← liftR (shape_at (transition self) 0);
  t ← on_rng (rng_choice_range n (np_shape (transition self)));
  on_self (modify (set_transition t));;
  self ← gets fst;
  r ← on_rng (rng_rand (np_shape (reward self)));
  on_self (modify (set_reward r)).

(** [StochasticMDP.step]; [transition[state, action, :]] is the row at
    [(state, action)]. *)
Definition StochasticMDP_step (action : Z) : M (MDP * G) step_result :=
  self ← gets fst;
  s ← liftR (index_of (state self));
  reward ← liftR (getitem (reward self) [s; action]);
  row ← liftR (getitem (transition self) [s; action]);
  probs ← liftR (match shape row with
                 | [] => Raise (IndexError "too many indices for array")
                 | _ => Ok row
                 end);
  done ← liftR (getitem (terminal self) [s]);
  n ← liftR (shape_at (transition self) 0);
  next ← on_rng (rng_choice_p n probs);
  on_self (modify (set_state next));;
  self ← gets fst;
  mret (state self, reward, done, to_config self).

(** [StochasticMDP.randomize] *)
Definition StochasticMDP_randomize : M (MDP * G) unit :=
  self ← gets fst;
  t ← on_rng (rng_rand (np_shape (transition self)));
  on_self (modify (set_transition t));;
  self ← gets fst;
  r ← on_rng (rng_rand (np_shape (reward self)));
  on_self (modify (set_reward r)).

(** Method dispatch on the class of [self]. *)
Definition step (action : Z) : M (MDP * G) step_result := λ w,
  match cls w.1 with
  | Deterministic => DeterministicMDP_step action w
  | Stochastic => StochasticMDP_step action w
  end.

Definition randomize : M (MDP * G) unit := λ w,
  match cls w.1 with
  | Deterministic => DeterministicMDP_randomize w
  | Stochastic => StochasticMDP_randomize w
  end.

(** A method call [mdp.f(np_random)] on a local object [mdp]: the caller
    holds [np_random] only and gets the object back. *)
Definition call_on {A} (mdp : MDP) (c : M (MDP * G) A) : M G MDP := λ g,
  match c (mdp, g) with
  | (Ok _, (mdp', g')) => (Ok mdp', g')
  | (Raise e, (_, g')) => (Raise e, g')
  end.

(** [MDP.from_config]; the state is the [np_random] passed in. *)
Definition from_config (config : Config) : M G MDP :=
  let mode := dict_get "mode" PNone config in
  transition ← liftR (np_array (dict_get "transition" (PList []) config));
  reward ← liftR (np_array (dict_get "reward" (PList []) config));
  terminal ← liftR (np_array (dict_get "terminal" (PList []) config));
  mdp ← (if is_str "deterministic" mode
         then liftR (DeterministicMDP transition reward (Some terminal))
         else if is_str "stochastic" mode
         then liftR (StochasticMDP transition reward (Some terminal))
         else raise (ValueError "Unknown MDP mode in configuration"));
  if truthy (dict_get "random" (PBool false) config)
  then call_on mdp randomize
  else mret mdp.

End Methods.

(* ------------------------------------------------------------------ *)
(** * class FiniteMDP, the gym environment *)

Record FiniteMDP {G : Type} : Type := mk_FiniteMDP {
  np_random : G;
  config : Config;
  mdp : option MDP;
  steps : Z;
  observation_space : option nat;
  action_space : option nat
}.

Arguments FiniteMDP G : clear implicits.

Definition MAX_STEPS : Z := 10.

(** [FiniteMDP.default_config] *)
Definition default_config : Config :=
  <["mode" := PStr "deterministic"]>
  (<["transition" := PList [PList [PInt 0]]]>
  (<["reward" := PList [PList [PInt 0]]]> ∅)).

Section Env.
Context {G : Type} `{RandomSource G}.

Definition set_np_random (x : G) (self : FiniteMDP G) : FiniteMDP G :=
  mk_FiniteMDP G x (config self) (mdp self) (steps self)
    (observation_space self) (action_space self).

Definition set_config (x : Config) (self : FiniteMDP G) : FiniteMDP G :=
  mk_FiniteMDP G (np_random self) x (mdp self) (steps self)
    (observation_space self) (action_space self).

Definition set_mdp (x : option MDP) (self : FiniteMDP G) : FiniteMDP G :=
  mk_FiniteMDP G (np_random self) (config self) x (steps self)
    (observation_space self) (action_space self).

Definition set_steps (x : Z) (self : FiniteMDP G) : FiniteMDP G :=
  mk_FiniteMDP G (np_random self) (config self) (mdp self) x
    (observation_space self) (action_space self).

Definition set_observation_space (x : option nat) (self : FiniteMDP G) : FiniteMDP G :=
  mk_FiniteMDP G (np_random self) (config self) (mdp self) (steps self)
    x (action_space self).

Definition set_action_space (x : option nat) (self : FiniteMDP G) : FiniteMDP G :=
  mk_FiniteMDP G (np_random self) (config self) (mdp self) (steps self)
    (observation_space self) x.

(** [self.mdp.f(..., np_random=self.np_random)] *)
Definition on_mdp {A} (c : M (MDP * G) A) : M (FiniteMDP G) A := λ self,
  match mdp self with
  | None => (Raise (AttributeError "'NoneType' object has no such attribute"), self)
  | Some m =>
      match c (m, np_random self) with
      | (r, (m', g')) => (r, set_np_random g' (set_mdp (Some m') self))
      end
  end.

(** [FiniteMDP.load_config]; [spaces.Discrete n] is kept as [n]. *)
Definition load_config : M (FiniteMDP G) unit :=
  self ← get;
  m ← zoom np_random set_np_random (from_config (config self));
  modify (set_mdp (Some m));;
  n ← liftR (shape_at (transition m) 0);
  modify (set_observation_space (Some n));;
  n ← liftR (shape_at (transition m) 1);
  modify (set_action_space (Some n)).

(** [FiniteMDP.reset] *)
Definition FiniteMDP_reset : M (FiniteMDP G) ndarray :=
  modify (set_steps 0);;
  on_mdp (on_self MDP_reset).

(** [FiniteMDP.__init__]; [g] is the generator [seed()] made. *)
Definition FiniteMDP__init__ (g : G) : res (FiniteMDP G) :=
  let self := mk_FiniteMDP G g default_config None 0 None None in
  match (load_config;; FiniteMDP_reset) self with
  | (Ok _, self) => Ok self
  | (Raise e, _) => Raise e
  end.

(** [FiniteMDP.configure]; [dict.update] lets the new entries win. *)
Definition configure (config' : Config) : M (FiniteMDP G) unit :=
  modify (λ self, set_config (config' ∪ config self) self);;
  load_config.

(** [FiniteMDP.copy_with_config]; values are immutable here, so the deep
    copy of [self] is [self]. *)
Definition copy_with_config (config' : Config) (self : FiniteMDP G) : res (FiniteMDP G) :=
  let env_copy := self in
  let env_copy := set_config config' env_copy in
  match on_mdp (on_self (update config')) env_copy with
  | (Ok _, env_copy) => Ok env_copy
  | (Raise e, _) => Raise e
  end.

(** [FiniteMDP.step] *)
Definition FiniteMDP_step (action : Z) : M (FiniteMDP G) step_result :=
  '(state, reward, done, info) ← on_mdp (step action);
  self ← get;
  done ← liftR (py_or done (bool_decide (steps self > MAX_STEPS)%Z));
  modify (set_steps (steps self + 1));;
  mret (state, reward, done, info).

End Env.

(* ------------------------------------------------------------------ *)
(** * A concrete generator

    A linear congruential generator; it stands for the seeded
    [RandomState] when a property is run on a concrete input. *)

Definition lcg_next (z : Z) : Z := ((1103515245 * z + 12345) mod 2 ^ 31)%Z.

Definition lcg_sample (z : Z) : Q * Z :=
  (Qmake (z mod 2 ^ 31)%Z (2 ^ 31)%positive, lcg_next z).

Definition lcg_randint (n : nat) (z : Z) : nat * Z :=
  (Z.to_nat (z mod 2 ^ 31)%Z mod n, lcg_next z).

#[global, refine] Instance lcg : RandomSource Z := {|
  random_sample := lcg_sample;
  randint := lcg_randint
|}.
Proof.
  - intros z. unfold lcg_sample; simpl fst.
    pose proof (Z.mod_pos_bound z (2 ^ 31) eq_refl) as [Hlo Hhi].
    unfold Qle, Qlt; cbn [Qnum Qden]. split; [lia|].
    rewrite Z.mul_1_r, Z.mul_1_l. exact Hhi.
  - intros n z Hn. unfold lcg_randint; simpl fst.
    apply Nat.mod_upper_bound. lia.
Defined.

(* ------------------------------------------------------------------ *)
(** * Vocabulary of the properties *)

(** An array of shape [sh] that holds as many entries as its shape says. *)
Definition has_shape (sh : list nat) (a : ndarray) : Prop :=
  shape a = sh ∧ length (data a) = product sh.

(** The tables of a deterministic model with [S] states and [A] actions:
    [transition] and [reward] of shape S x A, [terminal] of shape S. *)
Record det_wf (S A : nat) (m : MDP) : Prop := {
  wf_cls : cls m = Deterministic;
  wf_transition : has_shape [S; A] (transition m);
  wf_reward : has_shape [S; A] (reward m);
  wf_terminal : has_shape [S] (terminal m)
}.

(** The scenario of the specification: two states, one action. *)
Definition scenario_config : Config :=
  <["mode" := PStr "deterministic"]>
  (<["transition" := PList [PList [PInt 1]; PList [PInt 0]]]>
  (<["reward" := PList [PList [PInt 5]; PList [PInt 1]]]>
  (<["terminal" := PList [PInt 0; PInt 1]]> ∅))).

(** The model [from_config] builds from it. *)
Definition scenario_mdp : MDP :=
  mk_MDP Deterministic (scalar_array (SInt 0))
    (mk_ndarray [2; 1] [SInt 1; SInt 0])
    (mk_ndarray [2; 1] [SInt 5; SInt 1])
    (mk_ndarray [2] [SInt 0; SInt 1]).

(** What a caller sees of a step: [(next_state, reward, done)]. *)
Definition observed (r : res step_result) : res (ndarray * ndarray * ndarray) :=
  match r with
  | Ok (s, rw, d, _) => Ok (s, rw, d)
  | Raise e => Raise e
  end.

(** [reset(); step(0); step(0)] on the model built from a configuration. *)
Definition reset_step_step {G} `{RandomSource G} (c : Config) (g : G)
    : res (ndarray * (ndarray * ndarray * ndarray) * (ndarray * ndarray * ndarray)) :=
  match from_config c g with
  | (Raise e, _) => Raise e
  | (Ok m, g) =>
      match MDP_reset m with
      | (Raise e, _) => Raise e
      | (Ok s0, m) =>
          match step 0 (m, g) with
          | (Raise e, _) => Raise e
          | (Ok (s1, r1, d1, _), w) =>
              match step 0 w with
              | (Raise e, _) => Raise e
              | (Ok (s2, r2, d2, _), _) => Ok (s0, (s1, r1, d1), (s2, r2, d2))
              end
          end
      end
  end.

(** The table entries a configuration has are numeric arrays: [np.array]
    converts them. *)
Definition numeric_tables (c : Config) : Prop :=
  ∀ k v, k ∈ ["transition"; "reward"; "terminal"] → c !! k = Some v →
         ∃ a, np_array v = Ok a.

(** The table [update] leaves for key [k]: the converted entry when the
    key is present, the old table otherwise. *)
Definition updated (c : Config) (k : string) (old new : ndarray) : Prop :=
  match c !! k with
  | Some v => np_array v = Ok new
  | None => new = old
  end.

(** A partial configuration with one table, of a shape that fits no other
    table of the scenario model. *)
Definition partial_config : Config :=
  <["reward" := PList [PFloat 0.5; PInt 2; PInt 3]]> ∅.

(** A configuration with all four entries that asks for randomization. *)
Definition random_config : Config :=
  <["mode" := PStr "deterministic"]>
  (<["transition" := PList [PList [PInt 0]]]>
  (<["reward" := PList [PList [PInt 5]]]>
  (<["terminal" := PList [PInt 1]]>
  (<["random" := PBool true]> ∅)))).

(** A configuration whose reward table holds integers only, one of them
    above 2^53: numpy keeps it an int64. *)
Definition large_config : Config :=
  <["mode" := PStr "deterministic"]>
  (<["transition" := PList [PList [PInt 0]]]>
  (<["reward" := PList [PList [PInt 9007199254740993]]]>
  (<["terminal" := PList [PInt 1]]> ∅))).

(** A configuration whose reward table holds the same integer beside a
    float: numpy converts the table to float64, and 2^53 + 1 is no
    float64. *)
Definition lossy_config : Config :=
  <["mode" := PStr "deterministic"]>
  (<["transition" := PList [PList [PInt 0; PInt 0]]]>
  (<["reward" := PList [PList [PInt 9007199254740993; PFloat 0.5]]]>
  (<["terminal" := PList [PInt 1]]> ∅))).

(** The [mode] tag a model serializes with. *)
Definition mode_tag (c : variant) : string :=
  match c with
  | Deterministic => "deterministic"
  | Stochastic => "stochastic"
  end.

(** The environment as [FiniteMDP()] leaves it, on the default
    configuration. *)
Definition default_env : FiniteMDP Z :=
  mk_FiniteMDP Z 42%Z default_config
    (Some (mk_MDP Deterministic (scalar_array (SInt 0))
             (mk_ndarray [1; 1] [SInt 0]) (mk_ndarray [1; 1] [SInt 0])
             (mk_ndarray [1] [SFloat 0])))
    0 (Some 1) (Some 1).

(** Every entry of a deterministic transition table is a state index. *)
Definition indices_below (S : nat) (a : ndarray) : Prop :=
  Forall (λ x, ∃ t, x = SInt (Z.of_nat t) ∧ t < S) (data a).

(** The target stored at flat position [p] of a transition table. *)
Definition target (T : ndarray) (p : nat) : nat :=
  match data T !! p with
  | Some x => Z.to_nat (as_int x)
  | None => 0
  end.

(** The table under construction after [k] pairs [(s, a)] have been
    written, in row-major order of the pairs. *)
Definition one_hot_upto (S A : nat) (T : ndarray) (k : nat) (nt : ndarray) : Prop :=
  has_shape [S; A; S] nt ∧
  ∀ p j, p < S * A → j < S →
    data nt !! (p * S + j)
    = Some (SFloat (if bool_decide (p < k ∧ j = target T p) then 1 else 0)).

(** The entries of [a[s, act, :]] for [a] of shape S x A x S. *)
Definition row (S A : nat) (a : ndarray) (s act : nat) : list scalar :=
  take S (drop ((s * A + act) * S) (data a)).

(** A distribution with all its mass on [t]. *)
Definition one_hot_row (S t : nat) : list scalar :=
  replicate t (SFloat 0) ++ SFloat 1 :: replicate (S - t - 1) (SFloat 0).

(** A row that [choice] accepts as [p]. *)
Record distribution (n : nat) (p : list scalar) : Prop := {
  dist_length : length p = n;
  dist_nonneg : Forall (λ x, (0 <= value x)%Q) p;
  dist_sum : (Qabs (Qsum (value <$> p) - 1) <= choice_atol)%Q
}.

(** The index [choice] returns for the uniform sample [u]. *)
Definition sample_index (p : list scalar) (u : Q) : nat :=
  let cdf := cumsum (value <$> p) in
  searchsorted_right ((λ c, c / List.last cdf 0)%Q <$> cdf) u.

(** The tables of a stochastic model with [S] states and [A] actions:
    [transition] of shape S x A x S with a distribution in every row. *)
Record sto_wf (S A : nat) (m : MDP) : Prop := {
  swf_cls : cls m = Stochastic;
  swf_transition : has_shape [S; A; S] (transition m);
  swf_reward : has_shape [S; A] (reward m);
  swf_terminal : has_shape [S] (terminal m);
  swf_rows : ∀ s a, s < S → a < A → distribution S (row S A (transition m) s a)
}.


(** No state is terminal. *)
Definition never_terminal (m : MDP) : Prop :=
  Forall (λ x, nonzero x = false) (data (terminal m)).



Section EpisodeRuns.
Context {G : Type} `{RandomSource G}.

(** Consecutive [step] calls. *)
Fixpoint run_steps (actions : list Z) : M (FiniteMDP G) (list step_result) :=
  match actions with
  | [] => mret []
  | a :: rest =>
      r ← FiniteMDP_step a;
      rs ← run_steps rest;
      mret (r :: rs)
  end.

(** [reset()] and then the [step] calls. *)
Definition episode (actions : list Z) : M (FiniteMDP G) (list step_result) :=
  FiniteMDP_reset;; run_steps actions.

End EpisodeRuns.

(** A freshly drawn reward or probability. *)
Definition unit_float (x : scalar) : Prop :=
  ∃ q, x = SFloat q ∧ (0 <= q)%Q ∧ (q < 1)%Q.

(** A freshly drawn next state. *)
Definition state_index (S : nat) (x : scalar) : Prop :=
  ∃ z, x = SInt z ∧ (0 ≤ z < Z.of_nat S)%Z.

(** The random source after [k] draws by [f] of a run that starts at [g],
    and the value of the draw number [k] (from 0) of that run. *)
Definition after_draws {G A} (f : G → A * G) (k : nat) (g : G) : G :=
  Nat.iter k (λ g0, (f g0).2) g.

Definition nth_draw {G A} (f : G → A * G) (k : nat) (g : G) : A :=
  (f (after_draws f k g)).1.

(** A table of shape [sh] that holds, in row-major order, the draws by
    [f] of a run that starts at [g], stored by [inj]. *)
Definition drawn_table {G A} (f : G → A * G) (inj : A → scalar)
    (sh : list nat) (g : G) (a : ndarray) : Prop :=
  has_shape sh a ∧
  ∀ k, k < product sh → data a !! k = Some (inj (nth_draw f k g)).

(** The error [from_config] raises on a mode it does not know. *)
Definition unknown_mode : exn := ValueError "Unknown MDP mode in configuration".

(** The [mode] entry names one of the two classes. *)
Definition recognized_mode (c : Config) : Prop :=
  c !! "mode" = Some (PStr "deterministic") ∨ c !! "mode" = Some (PStr "stochastic").

(** An integer that float64 represents exactly: the conversion gives it
    back. *)
Definition exact_scalar (x : scalar) : Prop :=
  match x with
  | SInt z => round53 z = z
  | _ => True
  end.

(** The entries numpy converts to float64 when it builds a table: those
    of a table that holds a float, and those of a table that mixes
    negative integers with integers from 2^63 on, for which int64 and
    uint64 have no common integer type. *)
Definition float_promoted (d : list scalar) : Prop :=
  result_kind d = KFloat ∨
  (Exists (λ x, ∃ z, x = SInt z ∧ (z < 0)%Z) d ∧
   Exists (λ x, ∃ z, x = SInt z ∧ (2 ^ 63 ≤ z)%Z) d).

(** A table of a configuration: a rectangular nested sequence of numbers;
    where numpy converts them to float64, the integers are exact as
    floats.  A table of integers alone is kept as it is, whatever their
    size. *)
Definition valid_table (v : pyval) : Prop :=
  ∃ d, leaves (shape_of v) v = Some d ∧ (float_promoted d → Forall exact_scalar d).

(** [k1] converts to [k2] without leaving the dtype order. *)
Definition kind_le (k1 k2 : kind) : Prop := kind_max k1 k2 = k2.

(** The keys of the three tables, and the keys [to_config] emits. *)
Definition table_keys : list string := ["transition"; "reward"; "terminal"].

Definition config_keys : gset string :=
  {["mode"; "transition"; "reward"; "terminal"]}.

(** A configuration [from_config] builds a model from without drawing:
    a recognized mode, tables that are numeric arrays, a transition table
    with a first axis, and no request to randomize. *)
Record valid_config (c : Config) : Prop := {
  valid_mode : recognized_mode c;
  valid_tables : ∀ k v, k ∈ table_keys → c !! k = Some v → valid_table v;
  valid_axis : ∃ S rest, shape_of (dict_get "transition" (PList []) c) = S :: rest;
  valid_random : truthy (dict_get "random" (PBool false) c) = false
}.

(** The length of the first axis of the transition table of [c]. *)
Definition states_of (c : Config) : nat :=
  match shape_of (dict_get "transition" (PList []) c) with
  | n :: _ => n
  | [] => 0
  end.

(** The [terminal] entry of [c] is absent or has no element. *)
Definition terminal_empty (c : Config) : Prop :=
  product (shape_of (dict_get "terminal" (PList []) c)) = 0.

(* ------------------------------------------------------------------ *)
(** * Runs of a model, and further inputs *)

(** Consecutive [mdp.step] calls on a model, without the controller; the
    results are kept as [(next_state, reward, done)]. *)
Fixpoint run_model {G} `{RandomSource G} (actions : list Z)
    : M (MDP * G) (list (ndarray * ndarray * ndarray)) :=
  match actions with
  | [] => mret []
  | a :: rest =>
      '(s, r, d, _) ← step a;
      obs ← run_model rest;
      mret ((s, r, d) :: obs)
  end.

(** The scenario model converted by [from_deterministic]. *)
Definition scenario_sto : MDP :=
  mk_MDP Stochastic (scalar_array (SInt 0))
    (mk_ndarray [2; 1; 2] [SFloat 0; SFloat 1; SFloat 1; SFloat 0])
    (mk_ndarray [2; 1] [SInt 5; SInt 1])
    (mk_ndarray [2] [SInt 0; SInt 1]).

(** A row that float64 adds up without rounding: its entries are whole
    multiples of 2^-j, at most 2^53 of these units in all, so that every
    partial sum is a float64 and the compensated sum of [choice] is the
    sum of the rationals. *)
Definition float_exact_row (j : nat) (p : list Q) : Prop :=
  j ≤ 1074 ∧
  Forall (λ q, ∃ n : Z, (q == inject_Z n / inject_Z (2 ^ Z.of_nat j))%Q) p ∧
  (Qsum p * inject_Z (2 ^ Z.of_nat j) <= inject_Z (2 ^ 53))%Q.

(** A stochastic model whose first row sums to 0.75 and whose second row
    has a negative entry. *)
Definition unnormalized_mdp : MDP :=
  mk_MDP Stochastic (scalar_array (SInt 0))
    (mk_ndarray [2; 1; 2] [SFloat 0.5; SFloat 0.25; SFloat 1.5; SFloat (-0.5)])
    (mk_ndarray [2; 1] [SInt 5; SInt 1])
    (mk_ndarray [2] [SInt 0; SInt 1]).

(** A deterministic model whose second transition entry names no state. *)
Definition dangling_mdp : MDP :=
  mk_MDP Deterministic (scalar_array (SInt 0))
    (mk_ndarray [2; 1] [SInt 1; SInt 2])
    (mk_ndarray [2; 1] [SInt 5; SInt 1])
    (mk_ndarray [2] [SInt 0; SInt 1]).

(** A shape [np.array] finds again in [tolist]: only the last axis can be
    empty. *)
Fixpoint plain_shape (sh : list nat) : Prop :=
  match sh with
  | [] => True
  | n :: sh' =>
      match sh' with
      | [] => True
      | _ :: _ => 0 < n ∧ plain_shape sh'
      end
  end.

(** An array as [np.array] makes them: as many entries as the shape says,
    all of one dtype. *)
Record plain_array (a : ndarray) : Prop := {
  plain_length : length (data a) = product (shape a);
  plain_axes : plain_shape (shape a);
  plain_kind : ∃ k, Forall (λ x, kind_of x = k) (data a)
}.

(** Two partial configurations for [update]. *)
Definition first_config : Config :=
  <["transition" := PList [PList [PInt 0]; PList [PInt 0]]]>
  (<["reward" := PList [PList [PInt 2]; PList [PInt 3]]]> ∅).

Definition second_config : Config :=
  <["reward" := PList [PList [PFloat 0.5]; PList [PInt 1]]]>
  (<["terminal" := PList [PBool true; PBool false]]> ∅).

(** A configuration whose transition table has one axis only. *)
Definition flat_config : Config :=
  <["transition" := PList [PInt 0; PInt 0; PInt 0]]> ∅.

(** A configuration that switches the mode and gives all three tables. *)
Definition stochastic_config : Config :=
  <["mode" := PStr "stochastic"]>
  (<["transition" := PList [PList [PList [PFloat 0.5; PFloat 0.5]];
                            PList [PList [PInt 1; PInt 0]]]]>
  (<["reward" := PList [PList [PInt 1]; PList [PInt 2]]]> ∅)).

(** A configuration with a mode the module does not know. *)
Definition absurd_config : Config := <["mode" := PStr "quantum"]> ∅.

(** The scenario's environment after a first life: another seed, a step
    taken, a counter that has run. *)
Definition used_env : FiniteMDP Z :=
  mk_FiniteMDP Z 7%Z scenario_config
    (Some (set_state (scalar_array (SInt 1)) scenario_mdp)) 5 (Some 2) (Some 1).

Definition fresh_env : FiniteMDP Z :=
  mk_FiniteMDP Z 42%Z scenario_config (Some scenario_mdp) 0 (Some 2) (Some 1).

(** A configuration that gives no [reward] table. *)
Definition rewardless_config : Config :=
  <["mode" := PStr "deterministic"]>
  (<["transition" := PList [PList [PInt 0]]]> ∅).

(* ------------------------------------------------------------------ *)
(** * Facts about arrays *)

Ltac unfold_monad :=
  unfold mbind, mret, M_bind, M_ret, res_bind, res_ret,
    raise, liftR, get, gets, modify, zoom in *.

Lemma norm_index_nat n i : i < n → norm_index n (Z.of_nat i) = Ok i.
Proof.
  intros Hi. unfold norm_index.
  rewrite bool_decide_eq_true_2 by lia. by rewrite Nat2Z.id.
Qed.

Lemma norm_index_Ok n i j : norm_index n i = Ok j → j < n.
Proof.
  unfold norm_index. repeat case_bool_decide; intros [= <-]; lia.
Qed.

Lemma offset_lt sh : ∀ ix o, offset sh ix = Ok o → o < product sh.
Proof.
  induction sh as [|n sh IH]; intros [|i ix] o; simpl; try done.
  - intros [= <-]. lia.
  - unfold_monad. destruct (norm_index n i) as [j|] eqn:Hj; [|done].
    destruct (offset sh ix) as [o'|] eqn:Ho; [|done]. intros [= <-].
    apply norm_index_Ok in Hj. apply IH in Ho. nia.
Qed.

Lemma lookup_chunk {A} (d : list A) j k o :
  o < k → take k (drop (j * k) d) !! o = d !! (j * k + o).
Proof. intros Ho. by rewrite lookup_take_lt, lookup_drop. Qed.

Lemma length_chunk {A} (d : list A) n j k :
  length d = n * k → j < n → length (take k (drop (j * k) d)) = k.
Proof. intros Hd Hj. rewrite length_take, length_drop. nia. Qed.

(** A full index reads the entry at its row-major offset. *)
Lemma getitem_at_full sh : ∀ d ix o x,
  length d = product sh →
  offset sh ix = Ok o → d !! o = Some x →
  getitem_at sh d ix = Ok (scalar_array x).
Proof.
  induction sh as [|n sh IH]; intros d [|i ix] o x Hd; simpl; try done.
  - intros [= <-]. destruct d as [|y [|??]]; try done. by intros [= ->].
  - unfold_monad. destruct (norm_index n i) as [j|] eqn:Hj; [|done].
    destruct (offset sh ix) as [o'|] eqn:Ho; [|done]. intros [= <-] Hx.
    pose proof (norm_index_Ok _ _ _ Hj). pose proof (offset_lt _ _ _ Ho).
    eapply IH; [|done|].
    + by eapply length_chunk.
    + by rewrite lookup_chunk.
Qed.

Lemma getitem_full a ix o x :
  length (data a) = product (shape a) →
  offset (shape a) ix = Ok o → data a !! o = Some x →
  getitem a ix = Ok (scalar_array x).
Proof. apply getitem_at_full. Qed.

Lemma offset1 n i : i < n → offset [n] [Z.of_nat i] = Ok i.
Proof.
  intros Hi. simpl. rewrite norm_index_nat by done. unfold_monad.
  f_equal. lia.
Qed.

Lemma offset2 n m i j :
  i < n → j < m → offset [n; m] [Z.of_nat i; Z.of_nat j] = Ok (i * m + j).
Proof.
  intros Hi Hj. simpl. rewrite !norm_index_nat by done. unfold_monad.
  f_equal. lia.
Qed.

Lemma offset3 n m k i j l :
  i < n → j < m → l < k →
  offset [n; m; k] [Z.of_nat i; Z.of_nat j; Z.of_nat l] = Ok ((i * m + j) * k + l).
Proof.
  intros Hi Hj Hl. simpl. rewrite !norm_index_nat by done. unfold_monad.
  f_equal. lia.
Qed.

Lemma has_shape_lookup sh a o :
  has_shape sh a → o < product sh → is_Some (data a !! o).
Proof. intros [_ Hl] Ho. apply lookup_lt_is_Some. lia. Qed.

Lemma getitem1 n a i x :
  has_shape [n] a → i < n → data a !! i = Some x →
  getitem a [Z.of_nat i] = Ok (scalar_array x).
Proof.
  intros [Hs Hl] Hi Hx. eapply getitem_full; rewrite ?Hs; [done| |done].
  by apply offset1.
Qed.

Lemma getitem2 n m a i j x :
  has_shape [n; m] a → i < n → j < m → data a !! (i * m + j) = Some x →
  getitem a [Z.of_nat i; Z.of_nat j] = Ok (scalar_array x).
Proof.
  intros [Hs Hl] Hi Hj Hx. eapply getitem_full; rewrite ?Hs; [done| |done].
  by apply offset2.
Qed.

Lemma getitem3 n m k a i j l x :
  has_shape [n; m; k] a → i < n → j < m → l < k →
  data a !! ((i * m + j) * k + l) = Some x →
  getitem a [Z.of_nat i; Z.of_nat j; Z.of_nat l] = Ok (scalar_array x).
Proof.
  intros [Hs Hl] Hi Hj Hk Hx. eapply getitem_full; rewrite ?Hs; [done| |done].
  by apply offset3.
Qed.

(* ------------------------------------------------------------------ *)
(** * The deterministic step *)

Section DetStep.
Context {G : Type} `{RandomSource G}.

(** The step read off the code: three reads at the current state, then
    the assignment. *)
Lemma DeterministicMDP_step_reads (m : MDP) (g : G) s action r d t :
  index_of (state m) = Ok s →
  getitem (reward m) [s; action] = Ok r →
  getitem (terminal m) [s] = Ok d →
  getitem (transition m) [s; action] = Ok t →
  DeterministicMDP_step action (m, g)
  = (Ok (t, r, d, to_config (set_state t m)), (set_state t m, g)).
Proof.
  intros Hs Hr Hd Ht. unfold DeterministicMDP_step, on_self. unfold_monad.
  simpl. by rewrite Hs, Hr, Hd, Ht.
Qed.

Lemma det_step_in_range (S A : nat) (m : MDP) (g : G) (s a : nat) :
  det_wf S A m → state m = scalar_array (SInt (Z.of_nat s)) →
  s < S → a < A →
  ∃ r d t,
    data (reward m) !! (s * A + a) = Some r ∧
    data (terminal m) !! s = Some d ∧
    data (transition m) !! (s * A + a) = Some t ∧
    step (Z.of_nat a) (m, g)
    = (Ok (scalar_array t, scalar_array r, scalar_array d,
           to_config (set_state (scalar_array t) m)),
       (set_state (scalar_array t) m, g)).
Proof.
  intros [Hc Ht Hr Hd] Hst Hs Ha.
  assert (s * A + a < product [S; A]) as Hlt by (simpl; nia).
  destruct (has_shape_lookup _ _ _ Hr Hlt) as [r Hr'].
  destruct (has_shape_lookup _ _ _ Ht Hlt) as [t Ht'].
  destruct (has_shape_lookup [S] _ s Hd) as [d Hd']; [simpl; lia|].
  exists r, d, t. repeat split; try done.
  unfold step. simpl. rewrite Hc.
  eapply DeterministicMDP_step_reads.
  - by rewrite Hst.
  - by eapply getitem2.
  - by eapply getitem1.
  - by eapply getitem2.
Qed.

End DetStep.

(** C1. On the scenario model (S=2, A=1, transition [[1],[0]], reward
    [[5],[1]], terminal [0,1]) [reset()] returns 0, the first [step(0)]
    returns (1, 5, 0) with [done] false and the second returns (0, 1, 1)
    with [done] true.  In general, for a well-formed deterministic model in
    state [s < S] and an action [a < A], [step] does not raise, returns
    [reward[s, a]] and [terminal[s]] both read at the state before the
    move, and then sets the state to [transition[s, a]]; the random source
    is left as it was. *)
Theorem C1_det_step_reads_pre_transition_state :
  (∀ G (R : RandomSource G) (g : G),
     from_config scenario_config g = (Ok scenario_mdp, g) ∧
     reset_step_step scenario_config g
     = Ok (scalar_array (SInt 0),
           (scalar_array (SInt 1), scalar_array (SInt 5), scalar_array (SInt 0)),
           (scalar_array (SInt 0), scalar_array (SInt 1), scalar_array (SInt 1))) ∧
     truth (scalar_array (SInt 0)) = Ok false ∧
     truth (scalar_array (SInt 1)) = Ok true) ∧
  (∀ G (R : RandomSource G) (S A : nat) (m : MDP) (g : G) (s a : nat),
     det_wf S A m → state m = scalar_array (SInt (Z.of_nat s)) →
     s < S → a < A →
     ∃ r d t,
       data (reward m) !! (s * A + a) = Some r ∧
       data (terminal m) !! s = Some d ∧
       data (transition m) !! (s * A + a) = Some t ∧
       step (Z.of_nat a) (m, g)
       = (Ok (scalar_array t, scalar_array r, scalar_array d,
              to_config (set_state (scalar_array t) m)),
          (set_state (scalar_array t) m, g))).
Proof.
  split.
  - intros G R g. repeat split; reflexivity.
  - intros G R S A m g s a. apply det_step_in_range.
Qed.

Lemma scenario_mdp_wf : det_wf 2 1 scenario_mdp.
Proof. by repeat split. Qed.

Lemma C1_witness :
  ∃ r d t,
    data (reward scenario_mdp) !! (0 * 1 + 0) = Some r ∧
    data (terminal scenario_mdp) !! 0 = Some d ∧
    data (transition scenario_mdp) !! (0 * 1 + 0) = Some t ∧
    step (Z.of_nat 0) (scenario_mdp, 42%Z)
    = (Ok (scalar_array t, scalar_array r, scalar_array d,
           to_config (set_state (scalar_array t) scenario_mdp)),
       (set_state (scalar_array t) scenario_mdp, 42%Z)).
Proof.
  apply (proj2 C1_det_step_reads_pre_transition_state Z lcg 2 1 scenario_mdp 42%Z 0 0).
  - exact scenario_mdp_wf.
  - reflexivity.
  - lia.
  - lia.
Defined.

(** C7. The deterministic step is a function of the state, the tables and
    the action: from two models with equal [state], [transition], [reward]
    and [terminal], with the same action and any two random sources, it
    returns the same [(next_state, reward, done)] or raises the same
    exception, leaves equal states and tables, and draws nothing from
    either random source. *)
Theorem C7_det_step_pure
    G1 (R1 : RandomSource G1) G2 (R2 : RandomSource G2)
    (m1 m2 : MDP) (g1 : G1) (g2 : G2) (action : Z) :
  state m1 = state m2 → transition m1 = transition m2 →
  reward m1 = reward m2 → terminal m1 = terminal m2 →
  let out1 := DeterministicMDP_step action (m1, g1) in
  let out2 := DeterministicMDP_step action (m2, g2) in
  observed out1.1 = observed out2.1 ∧
  state out1.2.1 = state out2.2.1 ∧
  transition out1.2.1 = transition out2.2.1 ∧
  reward out1.2.1 = reward out2.2.1 ∧
  terminal out1.2.1 = terminal out2.2.1 ∧
  cls out1.2.1 = cls m1 ∧ cls out2.2.1 = cls m2 ∧
  out1.2.2 = g1 ∧ out2.2.2 = g2.
Proof.
  destruct m1 as [c1 s1 t1 r1 d1], m2 as [c2 s2 t2 r2 d2]; simpl.
  intros -> -> -> ->.
  unfold DeterministicMDP_step, on_self. unfold_monad. simpl.
  destruct (index_of s2) as [s|]; [|done].
  destruct (getitem r2 _) as [r|]; [|done].
  destruct (getitem d2 _) as [d|]; [|done].
  destruct (getitem t2 _) as [t|]; done.
Qed.

Lemma C7_witness :
  let out1 := DeterministicMDP_step 0 (scenario_mdp, 42%Z) in
  let out2 := DeterministicMDP_step 0 (set_state (scalar_array (SInt 0)) scenario_mdp, 7%Z) in
  observed out1.1 = observed out2.1 ∧
  state out1.2.1 = state out2.2.1 ∧
  transition out1.2.1 = transition out2.2.1 ∧
  reward out1.2.1 = reward out2.2.1 ∧
  terminal out1.2.1 = terminal out2.2.1 ∧
  cls out1.2.1 = Deterministic ∧ cls out2.2.1 = Deterministic ∧
  out1.2.2 = 42%Z ∧ out2.2.2 = 7%Z.
Proof.
  apply (C7_det_step_pure Z lcg Z lcg scenario_mdp
           (set_state (scalar_array (SInt 0)) scenario_mdp) 42%Z 7%Z 0);
    reflexivity.
Defined.

(* ------------------------------------------------------------------ *)
(** * update and copy_with_config *)

Lemma update_cls (c : Config) (m : MDP) :
  cls (update c m).2 = cls m ∧ state (update c m).2 = state m.
Proof.
  unfold update. unfold_monad.
  destruct (c !! "transition") as [v1|]; [destruct (np_array v1)|]; simpl; try done;
    (destruct (c !! "reward") as [v2|]; [destruct (np_array v2)|]; simpl; try done);
    (destruct (c !! "terminal") as [v3|]; [destruct (np_array v3)|]; simpl; done).
Qed.

Lemma update_runs (c : Config) (m : MDP) :
  numeric_tables c → ∃ m', update c m = (Ok (), m').
Proof.
  intros Hnum. unfold update. unfold_monad.
  assert (∀ k, k ∈ ["transition"; "reward"; "terminal"] →
               match c !! k with
               | Some v => ∃ a, np_array v = Ok a
               | None => True
               end) as Hk.
  { intros k Hin. destruct (c !! k) eqn:E; [by eapply Hnum|done]. }
  pose proof (Hk "transition" ltac:(set_solver)) as H1.
  pose proof (Hk "reward" ltac:(set_solver)) as H2.
  pose proof (Hk "terminal" ltac:(set_solver)) as H3.
  destruct (c !! "transition") as [v1|]; [destruct H1 as [a1 ->]|];
    (destruct (c !! "reward") as [v2|]; [destruct H2 as [a2 ->]|]);
    (destruct (c !! "terminal") as [v3|]; [destruct H3 as [a3 ->]|]);
    simpl; by eexists.
Qed.

(** C8. For every model and every partial configuration whose table
    entries are numeric arrays, [update] does not raise and replaces
    exactly the tables among [transition], [reward] and [terminal] whose
    key is present, each by the array of its entry whatever its shape;
    a table whose key is absent, the current state and the class of the
    model are as before. *)
Theorem C8_update_replaces_present_tables (c : Config) (m : MDP) :
  numeric_tables c →
  ∃ m', update c m = (Ok (), m') ∧
        cls m' = cls m ∧ state m' = state m ∧
        updated c "transition" (transition m) (transition m') ∧
        updated c "reward" (reward m) (reward m') ∧
        updated c "terminal" (terminal m) (terminal m').
Proof.
  intros Hnum. unfold update, updated. unfold_monad.
  assert (∀ k, k ∈ ["transition"; "reward"; "terminal"] →
               match c !! k with
               | Some v => ∃ a, np_array v = Ok a
               | None => True
               end) as Hk.
  { intros k Hin. destruct (c !! k) eqn:E; [by eapply Hnum|done]. }
  pose proof (Hk "transition" ltac:(set_solver)) as H1.
  pose proof (Hk "reward" ltac:(set_solver)) as H2.
  pose proof (Hk "terminal" ltac:(set_solver)) as H3.
  destruct (c !! "transition") as [v1|]; [destruct H1 as [a1 ->]|];
    (destruct (c !! "reward") as [v2|]; [destruct H2 as [a2 ->]|]);
    (destruct (c !! "terminal") as [v3|]; [destruct H3 as [a3 ->]|]);
    simpl; eexists; (split; [reflexivity|]); by simpl.
Qed.

Lemma partial_config_numeric : numeric_tables partial_config.
Proof.
  intros k v Hin. unfold partial_config.
  destruct (decide (k = "reward")) as [->|Hne].
  - rewrite lookup_insert_eq. intros [= <-]. eexists. reflexivity.
  - rewrite lookup_insert_ne, lookup_empty by done. done.
Qed.

Lemma C8_witness :
  ∃ m', update partial_config scenario_mdp = (Ok (), m') ∧
        cls m' = cls scenario_mdp ∧ state m' = state scenario_mdp ∧
        updated partial_config "transition" (transition scenario_mdp) (transition m') ∧
        updated partial_config "reward" (reward scenario_mdp) (reward m') ∧
        updated partial_config "terminal" (terminal scenario_mdp) (terminal m').
Proof.
  apply (C8_update_replaces_present_tables partial_config scenario_mdp).
  exact partial_config_numeric.
Defined.

Lemma to_config_mode (m : MDP) :
  to_config m !! "mode" = Some (PStr (mode_tag (cls m))).
Proof.
  unfold to_config, StochasticMDP_to_config, DeterministicMDP_to_config.
  destruct (cls m); by rewrite lookup_insert_eq.
Qed.

Lemma update_insert_mode (c : Config) (v : pyval) (m : MDP) :
  update (<["mode" := v]> c) m = update c m.
Proof. unfold update. by rewrite !lookup_insert_ne by done. Qed.

Lemma numeric_tables_insert_mode (c : Config) (v : pyval) :
  numeric_tables c → numeric_tables (<["mode" := v]> c).
Proof.
  intros Hc k w Hin. rewrite lookup_insert_ne; [by apply Hc|].
  intros Hk. rewrite <- Hk in Hin.
  apply list_elem_of_In in Hin. simpl in Hin.
  destruct Hin as [?|[?|[?|[]]]]; discriminate.
Qed.

Section Copy.
Context {G : Type} `{RandomSource G}.

Lemma copy_with_config_ok (c : Config) (env : FiniteMDP G) (m : MDP) :
  mdp env = Some m → numeric_tables c →
  ∃ m', update c m = (Ok (), m') ∧
        copy_with_config c env
        = Ok (mk_FiniteMDP G (np_random env) c (Some m') (steps env)
                (observation_space env) (action_space env)).
Proof.
  intros Hm Hc. destruct (update_runs c m Hc) as (m' & Hu).
  exists m'. split; [done|].
  unfold copy_with_config, on_mdp, on_self. unfold_monad. simpl.
  by rewrite Hm, Hu.
Qed.

(** C10. [update] does not look at the [mode] key: adding or changing
    it in the configuration changes nothing of what [update] does, and
    the class of the model is the same after [update], also when it
    raises.  So [copy_with_config(c)] on an environment with model [m],
    for [c] with any [mode], returns a copy that stores [c] as its
    configuration while its model has the class of [m]: it serializes
    with the mode tag of [m] and [step] on it is the step of the class of
    [m]. *)
Theorem C10_update_ignores_mode
    (c : Config) (mode : pyval) (env : FiniteMDP G) (m : MDP) :
  mdp env = Some m → numeric_tables c →
  update (<["mode" := mode]> c) m = update c m ∧
  cls (update (<["mode" := mode]> c) m).2 = cls m ∧
  ∃ env' m',
    copy_with_config (<["mode" := mode]> c) env = Ok env' ∧
    config env' = <["mode" := mode]> c ∧
    config env' !! "mode" = Some mode ∧
    mdp env' = Some m' ∧
    cls m' = cls m ∧
    to_config m' !! "mode" = Some (PStr (mode_tag (cls m))) ∧
    (∀ action (g : G),
       step action (m', g)
       = match cls m with
         | Deterministic => DeterministicMDP_step action (m', g)
         | Stochastic => StochasticMDP_step action (m', g)
         end).
Proof.
  intros Hm Hc. split; [apply update_insert_mode|].
  split; [apply update_cls|].
  destruct (copy_with_config_ok (<["mode" := mode]> c) env m Hm) as (m' & Hu & Hcopy).
  { by apply numeric_tables_insert_mode. }
  assert (cls m' = cls m) as Hcls.
  { pose proof (update_cls (<["mode" := mode]> c) m) as [Hcl _].
    by rewrite Hu in Hcl. }
  eexists _, m'. split; [exact Hcopy|]. simpl.
  rewrite lookup_insert_eq, to_config_mode, Hcls.
  repeat split; try done.
  intros action g. unfold step. simpl. by rewrite Hcls.
Qed.

End Copy.

Lemma default_env_init : FiniteMDP__init__ 42%Z = Ok default_env.
Proof. reflexivity. Qed.

Lemma numeric_tables_empty : numeric_tables ∅.
Proof. intros k v _. by rewrite lookup_empty. Qed.

Lemma C10_witness :
  ∃ env' m',
    copy_with_config (<["mode" := PStr "stochastic"]> ∅) default_env = Ok env' ∧
    config env' !! "mode" = Some (PStr "stochastic") ∧
    mdp env' = Some m' ∧
    cls m' = Deterministic ∧
    to_config m' !! "mode" = Some (PStr "deterministic").
Proof.
  destruct (C10_update_ignores_mode ∅ (PStr "stochastic") default_env
              (mk_MDP Deterministic (scalar_array (SInt 0))
                 (mk_ndarray [1; 1] [SInt 0]) (mk_ndarray [1; 1] [SInt 0])
                 (mk_ndarray [1] [SFloat 0]))
              eq_refl numeric_tables_empty)
    as (_ & _ & env' & m' & Hcopy & _ & Hmode & Hm & Hcls & Htag & _).
  exists env', m'. repeat split; assumption.
Defined.

(* ------------------------------------------------------------------ *)
(** * from_deterministic *)

Lemma target_lookup S T p :
  indices_below S T → p < length (data T) →
  data T !! p = Some (SInt (Z.of_nat (target T p))) ∧ target T p < S.
Proof.
  intros Hall Hp. apply lookup_lt_is_Some in Hp as [x Hx].
  unfold indices_below in Hall. rewrite Forall_lookup in Hall.
  destruct (Hall _ _ Hx) as (t & -> & Ht).
  unfold target. rewrite Hx. simpl. by rewrite Nat2Z.id.
Qed.

(** A loop over [range] keeps an invariant indexed by the loop counter. *)
Lemma for_each_seq_inv {B} (P : nat → B → Prop) (body : nat → B → res B) len :
  ∀ start acc,
    P start acc →
    (∀ i b, start ≤ i < start + len → P i b → ∃ b', body i b = Ok b' ∧ P (S i) b') →
    ∃ acc', for_each (seq start len) body acc = Ok acc' ∧ P (start + len) acc'.
Proof.
  induction len as [|len IH]; intros start acc Hacc Hbody; simpl.
  - exists acc. by rewrite Nat.add_0_r.
  - destruct (Hbody start acc) as (b' & -> & Hb'); [lia|done|].
    unfold_monad. destruct (IH (S start) b') as (acc' & -> & Hacc'); [done| |].
    + intros i b Hi. apply Hbody. lia.
    + exists acc'. split; [done|]. by replace (start + S len) with (S start + len) by lia.
Qed.

Lemma one_hot_zeros S A T : one_hot_upto S A T 0 (np_zeros [S; A; S]).
Proof.
  split.
  - split; [done|]. simpl. by rewrite length_replicate.
  - intros p j Hp Hj. simpl. by rewrite lookup_replicate_2 by nia.
Qed.

Lemma one_hot_write S A T s a nt :
  has_shape [S; A] T → indices_below S T → s < S → a < A →
  one_hot_upto S A T (s * A + a) nt →
  ∃ nt',
    (x ← getitem T [Z.of_nat s; Z.of_nat a];
     i ← py_int x;
     setitem nt [Z.of_nat s; Z.of_nat a; i] (SFloat 1)) = Ok nt' ∧
    one_hot_upto S A T (s * A + Datatypes.S a) nt'.
Proof.
  intros HT Hidx Hs Ha [[Hsh Hlen] Hinv].
  assert (s * A + a < length (data T)) as Hp.
  { destruct HT as [_ ->]. simpl. nia. }
  destruct (target_lookup _ _ _ Hidx Hp) as [Hx Ht].
  set (t := target T (s * A + a)) in *.
  erewrite getitem2 by done. unfold_monad. simpl.
  unfold setitem. rewrite Hsh, offset3 by done. unfold_monad.
  eexists. split; [done|]. split.
  - split; [done|]. simpl. by rewrite length_insert.
  - intros p j Hpp Hj. simpl.
    destruct (decide (p = s * A + a ∧ j = t)) as [[-> ->]|Hne].
    + rewrite list_lookup_insert_eq by (rewrite Hlen; simpl; nia).
      by rewrite bool_decide_eq_true_2 by (fold t; lia).
    + rewrite list_lookup_insert_ne.
      * rewrite Hinv by done.
        rewrite (bool_decide_ext (p < s * A + a ∧ j = target T p)
                   (p < s * A + Datatypes.S a ∧ j = target T p)); [done|].
        destruct (decide (p = s * A + a)) as [->|]; [|lia].
        fold t. lia.
      * intros Heq. apply Hne.
        assert (p = s * A + a) by nia. subst p. split; [done|lia].
Qed.

Lemma from_deterministic_loops S A T :
  has_shape [S; A] T → indices_below S T →
  ∃ nt,
    for_each (seq 0 S) (λ s,
      for_each (seq 0 A) (λ a new_transition,
        x ← getitem T [Z.of_nat s; Z.of_nat a];
        i ← py_int x;
        setitem new_transition [Z.of_nat s; Z.of_nat a; i] (SFloat 1)))
      (np_zeros [S; A; S]) = Ok nt ∧
    one_hot_upto S A T (S * A) nt.
Proof.
  intros HT Hidx.
  apply (for_each_seq_inv (λ s nt, one_hot_upto S A T (s * A) nt) _ S 0).
  - apply one_hot_zeros.
  - intros s nt [_ Hs] Hnt. simpl in Hs.
    destruct (for_each_seq_inv (λ a nt, one_hot_upto S A T (s * A + a) nt)
                (λ a new_transition,
                   x ← getitem T [Z.of_nat s; Z.of_nat a];
                   i ← py_int x;
                   setitem new_transition [Z.of_nat s; Z.of_nat a; i] (SFloat 1))
                A 0 nt) as (nt' & Hrun & Hnt').
    + by rewrite Nat.add_0_r.
    + intros a b [_ Ha] Hb. simpl in Ha. by apply one_hot_write.
    + exists nt'. split; [done|]. simpl in Hnt'.
      by replace (Datatypes.S s * A) with (s * A + A) by lia.
Qed.

Lemma from_deterministic_ok S A (m : MDP) :
  det_wf S A m → indices_below S (transition m) →
  ∃ nt, from_deterministic m
        = Ok (mk_MDP Stochastic (scalar_array (SInt 0)) nt (reward m) (terminal m)) ∧
        one_hot_upto S A (transition m) (S * A) nt.
Proof.
  intros [_ HT _ Hd] Hidx.
  destruct (from_deterministic_loops S A (transition m) HT Hidx) as (nt & Hloops & Hnt).
  exists nt. split; [|done].
  unfold from_deterministic, shape_at. destruct HT as [-> _]. simpl.
  unfold_monad. rewrite Hloops.
  unfold StochasticMDP, DeterministicMDP__init__, shape_at, np_size.
  destruct Hnt as [[-> _] _]. destruct Hd as [Hsh Hlen]. rewrite Hsh. simpl.
  case_bool_decide as HS; simpl; [|done].
  assert (S = 0) as -> by lia.
  destruct (terminal m) as [sh d]; simpl in *. subst sh.
  destruct d; [done|]. simpl in Hlen. lia.
Qed.

Lemma chunk_chunk {X} (d : list X) i j m k :
  j < m →
  take k (drop (j * k) (take (m * k) (drop (i * (m * k)) d)))
  = take k (drop ((i * m + j) * k) d).
Proof.
  intros Hj. apply list_eq. intros o.
  destruct (decide (o < k)) as [Ho|Ho].
  - rewrite !lookup_take_lt, !lookup_drop by done.
    rewrite lookup_take_lt, lookup_drop by nia. f_equal. lia.
  - by rewrite !lookup_take_ge by lia.
Qed.

Lemma getitem_row S A a s act :
  has_shape [S; A; S] a → s < S → act < A →
  getitem a [Z.of_nat s; Z.of_nat act] = Ok (mk_ndarray [S] (row S A a s act)).
Proof.
  intros [Hsh Hlen] Hs Ha. unfold getitem, row. rewrite Hsh. simpl.
  rewrite !norm_index_nat by done. unfold_monad.
  rewrite !Nat.mul_1_r. by rewrite chunk_chunk.
Qed.

Lemma row_length S A a s act :
  has_shape [S; A; S] a → s < S → act < A → length (row S A a s act) = S.
Proof.
  intros [_ Hlen] Hs Ha. unfold row. rewrite length_take, length_drop, Hlen.
  simpl. nia.
Qed.

Lemma row_lookup S A a s act j :
  j < S → row S A a s act !! j = data a !! ((s * A + act) * S + j).
Proof. intros Hj. unfold row. by rewrite lookup_take_lt, lookup_drop. Qed.

Lemma one_hot_row_lookup S t j :
  t < S → j < S →
  one_hot_row S t !! j = Some (SFloat (if bool_decide (j = t) then 1 else 0)).
Proof.
  intros Ht Hj. unfold one_hot_row.
  destruct (decide (j < t)) as [Hlt|Hge].
  - rewrite lookup_app_l by (rewrite length_replicate; lia).
    rewrite lookup_replicate_2 by done.
    by rewrite bool_decide_eq_false_2 by lia.
  - rewrite lookup_app_r by (rewrite length_replicate; lia).
    rewrite length_replicate. case_bool_decide as Hjt.
    + subst j. by rewrite Nat.sub_diag.
    + destruct (j - t) as [|n] eqn:E; [lia|]. simpl.
      by rewrite lookup_replicate_2 by lia.
Qed.

Lemma one_hot_upto_row S A T nt s act :
  one_hot_upto S A T (S * A) nt → s < S → act < A → target T (s * A + act) < S →
  row S A nt s act = one_hot_row S (target T (s * A + act)).
Proof.
  intros [Hnt Hinv] Hs Ha Ht. apply list_eq. intros j.
  destruct (decide (j < S)) as [Hj|Hj].
  - rewrite row_lookup, one_hot_row_lookup, Hinv by (done || nia).
    rewrite (bool_decide_ext (s * A + act < S * A ∧ j = target T (s * A + act))
               (j = target T (s * A + act))); [done|]. nia.
  - rewrite !lookup_ge_None_2; [done| |].
    + unfold one_hot_row. rewrite length_app, length_cons, !length_replicate. lia.
    + erewrite row_length by done. lia.
Qed.

(* ------------------------------------------------------------------ *)
(** * Sampling by inversion *)

Lemma cumsum_from_length p : ∀ acc, length (cumsum_from acc p) = length p.
Proof. induction p as [|x p IH]; intros acc; simpl; [done|]. by rewrite IH. Qed.

Lemma cumsum_from_last p : ∀ acc d,
  p ≠ [] → (List.last (cumsum_from acc p) d == acc + Qsum p)%Q.
Proof.
  induction p as [|x p IH]; intros acc d Hp; [done|].
  destruct p as [|y p].
  - simpl. ring.
  - change (List.last (cumsum_from acc (x :: y :: p)) d)
      with (List.last (cumsum_from (acc + x) (y :: p)) d).
    rewrite IH by done. change (Qsum (x :: y :: p)) with (x + Qsum (y :: p))%Q.
    ring.
Qed.

Lemma last_fmap {X Y} (f : X → Y) (l : list X) d :
  List.last (f <$> l) (f d) = f (List.last l d).
Proof.
  induction l as [|x l IH]; [done|].
  destruct l as [|y l]; [done|]. exact IH.
Qed.

Lemma filter_last_out {X} (P : X → Prop) `{∀ x, Decision (P x)} (l : list X) d :
  l ≠ [] → ¬ P (List.last l d) → length (filter P l) < length l.
Proof.
  induction l as [|x l IH]; intros Hl Hlast; [done|].
  destruct l as [|y l].
  - simpl in Hlast. rewrite filter_cons_False by done. simpl. lia.
  - assert (length (filter P (y :: l)) < length (y :: l)) as Hlt by by apply IH.
    rewrite filter_cons. destruct (decide (P x)); simpl in *; lia.
Qed.

Lemma filter_all {X} (P : X → Prop) `{∀ x, Decision (P x)} (l : list X) :
  Forall P l → filter P l = l.
Proof.
  induction 1 as [|x l Hx Hl IH]; [done|].
  by rewrite filter_cons_True, IH.
Qed.

Lemma filter_none {X} (P : X → Prop) `{∀ x, Decision (P x)} (l : list X) :
  Forall (λ x, ¬ P x) l → filter P l = [].
Proof.
  induction 1 as [|x l Hx Hl IH]; [done|].
  by rewrite filter_cons_False, IH.
Qed.

Lemma existsb_nonneg (p : list scalar) :
  Forall (λ x, (0 <= value x)%Q) p →
  existsb (λ x, negb (Qle_bool 0 x)) (value <$> p) = false.
Proof.
  induction 1 as [|x p Hx Hp IH]; [done|]. rewrite fmap_cons. cbn [existsb].
  rewrite IH, orb_false_r. apply negb_false_iff. by apply Qle_bool_iff.
Qed.

Lemma Qsum_positive (pv : list Q) :
  (Qabs (Qsum pv - 1) <= choice_atol)%Q → (0 < Qsum pv)%Q.
Proof.
  intros Habs. apply Qabs_Qle_condition in Habs as [Hlo _].
  unfold choice_atol in Hlo.
  assert (- (1 # 2 ^ 26) <= Qsum pv - 1)%Q as Hlo' by exact Hlo.
  assert (-(1 # 2) <= - (1 # 2 ^ 26))%Q as Hc by (by vm_compute).
  lra.
Qed.

Lemma sample_index_lt n (p : list scalar) (u : Q) :
  0 < n → distribution n p → (u < 1)%Q → sample_index p u < n.
Proof.
  intros Hn [Hlen Hpos Hsum] Hu1. unfold sample_index.
  set (pv := value <$> p) in *.
  assert (pv ≠ []) as Hpv.
  { intros E. apply (f_equal length) in E. subst pv.
    rewrite length_fmap in E. simpl in E. lia. }
  set (L := List.last (cumsum pv) 0%Q).
  assert (L == Qsum pv)%Q as HL.
  { unfold L, cumsum. rewrite cumsum_from_last by done. ring. }
  pose proof (Qsum_positive _ Hsum) as Hpos'.
  set (cdf := (λ c, c / L)%Q <$> cumsum pv).
  unfold searchsorted_right.
  replace n with (length cdf)
    by (unfold cdf, cumsum, pv;
        by rewrite length_fmap, cumsum_from_length, length_fmap).
  apply (filter_last_out _ _ (0 / L)%Q).
  - unfold cdf, cumsum. destruct pv; [done|]. simpl. done.
  - unfold cdf. rewrite (last_fmap (λ c, (c / L)%Q)). fold L.
    intros Hle. apply Is_true_true in Hle. apply Qle_bool_iff in Hle.
    assert (L / L == 1)%Q as Hone by (field; lra).
    rewrite Hone in Hle. lra.
Qed.

Section Choice.
Context {G : Type} `{RandomSource G}.

(** On a distribution over [n > 0] states [choice] draws one uniform
    sample and returns a state index. *)
Lemma rng_choice_p_distribution n (p : list scalar) (g : G) :
  0 < n → distribution n p →
  sample_index p (random_sample g).1 < n ∧
  rng_choice_p n (mk_ndarray [n] p) g
  = (Ok (scalar_array (SInt (Z.of_nat (sample_index p (random_sample g).1)))),
     (random_sample g).2).
Proof.
  intros Hn Hp.
  assert (sample_index p (random_sample g).1 < n) as Hidx.
  { apply sample_index_lt; [done..|]. apply random_sample_range. }
  split; [done|]. destruct Hp as [Hlen Hpos Hsum].
  unfold rng_choice_p, np_size. cbn [shape data].
  rewrite bool_decide_eq_false_2 by lia.
  rewrite bool_decide_eq_false_2 by (simpl; lia).
  rewrite bool_decide_eq_false_2 by (simpl; lia).
  rewrite existsb_nonneg by done.
  apply Qle_bool_iff in Hsum as Hsum'. rewrite Hsum'. simpl negb. cbv iota.
  destruct (random_sample g) as [u g'] eqn:Hu. simpl in *.
  fold (sample_index p u). by rewrite bool_decide_eq_true_2.
Qed.

End Choice.

Lemma cumsum_from_zeros k : ∀ acc,
  Forall (λ c, c == acc)%Q (cumsum_from acc (replicate k 0%Q)).
Proof.
  induction k as [|k IH]; intros acc; simpl; [done|].
  assert (acc + 0 == acc)%Q as Hacc by ring.
  constructor; [done|].
  eapply Forall_impl; [apply IH|]. intros c Hc. simpl in Hc. by rewrite Hc.
Qed.

Lemma cumsum_from_zeros_app t : ∀ acc rest,
  ∃ l1 acc',
    cumsum_from acc (replicate t 0%Q ++ rest) = l1 ++ cumsum_from acc' rest ∧
    length l1 = t ∧ Forall (λ c, c == acc)%Q l1 ∧ (acc' == acc)%Q.
Proof.
  induction t as [|t IH]; intros acc rest; simpl.
  - by exists [], acc.
  - assert (acc + 0 == acc)%Q as Hacc by ring.
    destruct (IH (acc + 0)%Q rest) as (l1 & acc' & -> & Hlen & Hall & Hacc').
    exists ((acc + 0)%Q :: l1), acc'. repeat split.
    + simpl. by rewrite Hlen.
    + constructor; [done|].
      eapply Forall_impl; [exact Hall|]. intros c Hc. simpl in Hc. by rewrite Hc.
    + by rewrite Hacc'.
Qed.

Lemma one_hot_values S t :
  value <$> one_hot_row S t = replicate t 0%Q ++ 1%Q :: replicate (S - t - 1) 0%Q.
Proof. unfold one_hot_row. by rewrite fmap_app, fmap_cons, !fmap_replicate. Qed.

Lemma Qsum_zeros k : (Qsum (replicate k 0%Q) == 0)%Q.
Proof. induction k as [|k IH]; simpl; [done|]. rewrite IH. ring. Qed.

Lemma Qsum_app l1 l2 : (Qsum (l1 ++ l2) == Qsum l1 + Qsum l2)%Q.
Proof. induction l1 as [|x l1 IH]; simpl; [ring|]. rewrite IH. ring. Qed.

Lemma Qsum_one_hot S t : (Qsum (value <$> one_hot_row S t) == 1)%Q.
Proof.
  rewrite one_hot_values, Qsum_app. simpl. rewrite !Qsum_zeros. ring.
Qed.

Lemma one_hot_distribution S t : t < S → distribution S (one_hot_row S t).
Proof.
  intros Ht. split.
  - unfold one_hot_row. rewrite length_app, length_cons, !length_replicate. lia.
  - unfold one_hot_row. apply Forall_app. split; [|constructor].
    + apply Forall_replicate. simpl. lra.
    + simpl. lra.
    + apply Forall_replicate. simpl. lra.
  - rewrite Qsum_one_hot. by vm_compute.
Qed.

(** Inversion on a one-hot row returns its index, whatever the sample. *)
Lemma sample_index_one_hot S t u :
  t < S → (0 <= u)%Q → (u < 1)%Q → sample_index (one_hot_row S t) u = t.
Proof.
  intros Ht Hu0 Hu1. unfold sample_index.
  set (pv := value <$> one_hot_row S t).
  set (L := List.last (cumsum pv) 0%Q).
  assert (L == 1)%Q as HL.
  { unfold L, cumsum. rewrite cumsum_from_last.
    - unfold pv. rewrite Qsum_one_hot. ring.
    - unfold pv. rewrite one_hot_values. by destruct t. }
  unfold cumsum, pv. rewrite one_hot_values.
  destruct (cumsum_from_zeros_app t 0%Q (1%Q :: replicate (S - t - 1) 0%Q))
    as (l1 & acc' & -> & Hlen & Hall & Hacc').
  unfold searchsorted_right. rewrite fmap_app, filter_app, length_app.
  rewrite filter_all, filter_none.
  - rewrite length_fmap, Hlen. simpl. lia.
  - apply Forall_fmap. simpl.
    constructor.
    + simpl. intros Hle. apply Is_true_true, Qle_bool_iff in Hle.
      assert ((acc' + 1) / L == 1)%Q as Hone by (rewrite Hacc', HL; field).
      rewrite Hone in Hle. lra.
    + eapply Forall_impl; [apply cumsum_from_zeros|].
      intros c Hc Hle. simpl in *. apply Is_true_true, Qle_bool_iff in Hle.
      assert (c / L == 1)%Q as Hone by (rewrite Hc, Hacc', HL; field).
      rewrite Hone in Hle. lra.
  - apply Forall_fmap. eapply Forall_impl; [exact Hall|].
    intros c Hc. simpl in *. apply Is_true_true, Qle_bool_iff.
    assert (c / L == 0)%Q as Hzero by (rewrite Hc, HL; field).
    rewrite Hzero. done.
Qed.

(* ------------------------------------------------------------------ *)
(** * The stochastic step *)

Section StoStep.
Context {G : Type} `{RandomSource G}.

Lemma sto_step_in_range (S A : nat) (m : MDP) (g : G) (s a : nat) :
  sto_wf S A m → state m = scalar_array (SInt (Z.of_nat s)) →
  s < S → a < A →
  let t := sample_index (row S A (transition m) s a) (random_sample g).1 in
  ∃ r d,
    data (reward m) !! (s * A + a) = Some r ∧
    data (terminal m) !! s = Some d ∧
    t < S ∧
    step (Z.of_nat a) (m, g)
    = (Ok (scalar_array (SInt (Z.of_nat t)), scalar_array r, scalar_array d,
           to_config (set_state (scalar_array (SInt (Z.of_nat t))) m)),
       (set_state (scalar_array (SInt (Z.of_nat t))) m, (random_sample g).2)).
Proof.
  intros [Hc Ht Hr Hd Hrows] Hst Hs Ha t.
  assert (s * A + a < product [S; A]) as Hlt by (simpl; nia).
  destruct (has_shape_lookup _ _ _ Hr Hlt) as [r Hr'].
  destruct (has_shape_lookup [S] _ s Hd) as [d Hd']; [simpl; lia|].
  destruct (rng_choice_p_distribution S _ g ltac:(lia) (Hrows s a Hs Ha))
    as [Hidx Hchoice].
  exists r, d. repeat split; try done.
  unfold step. simpl. rewrite Hc.
  unfold StochasticMDP_step, on_self, on_rng, shape_at. unfold_monad. simpl.
  rewrite Hst. simpl.
  erewrite getitem2 by done.
  erewrite getitem_row by done. simpl.
  erewrite getitem1 by done.
  destruct Ht as [Hsh _]. rewrite Hsh. simpl.
  by rewrite Hchoice.
Qed.

End StoStep.

(** C4. For a well-formed deterministic model whose transition entries are
    state indices, [from_deterministic] returns a stochastic model with the
    same [reward] and [terminal] whose [transition[s, a, j]] is 1.0 when
    [j] is the deterministic target of [(s, a)] and 0.0 otherwise; and from
    any state [s < S], with any action [a < A] and any random source, a
    step of the converted model and a step of the deterministic model end
    in the same next state and return the same reward (and the same
    [done]). *)
Theorem C4_from_deterministic_preserves_step (S A : nat) (m : MDP) :
  det_wf S A m → indices_below S (transition m) →
  ∃ sm,
    from_deterministic m = Ok sm ∧
    cls sm = Stochastic ∧
    has_shape [S; A; S] (transition sm) ∧
    reward sm = reward m ∧
    terminal sm = terminal m ∧
    ∀ s a, s < S → a < A →
      ∃ t, t < S ∧
        data (transition m) !! (s * A + a) = Some (SInt (Z.of_nat t)) ∧
        (∀ j, j < S →
           getitem (transition sm) [Z.of_nat s; Z.of_nat a; Z.of_nat j]
           = Ok (scalar_array (SFloat (if bool_decide (j = t) then 1 else 0)))) ∧
        ∀ G (R : RandomSource G) (g : G),
          let here := set_state (scalar_array (SInt (Z.of_nat s))) in
          let there := set_state (scalar_array (SInt (Z.of_nat t))) in
          ∃ r d,
            observed (step (Z.of_nat a) (here m, g)).1
            = Ok (scalar_array (SInt (Z.of_nat t)), r, d) ∧
            (step (Z.of_nat a) (here m, g)).2 = (there m, g) ∧
            observed (step (Z.of_nat a) (here sm, g)).1
            = Ok (scalar_array (SInt (Z.of_nat t)), r, d) ∧
            (step (Z.of_nat a) (here sm, g)).2 = (there sm, (random_sample g).2).
Proof.
  intros Hwf Hidx.
  destruct (from_deterministic_ok S A m Hwf Hidx) as (nt & Hfrom & Hnt).
  eexists. split; [exact Hfrom|]. simpl.
  repeat split; try apply Hnt.
  intros s a Hs Ha.
  assert (s * A + a < length (data (transition m))) as Hp.
  { destruct Hwf as [_ [_ ->] _ _]. simpl. nia. }
  destruct (target_lookup _ _ _ Hidx Hp) as [Hx Ht].
  set (t := target (transition m) (s * A + a)) in *.
  pose proof (one_hot_upto_row _ _ _ _ s a Hnt Hs Ha Ht) as Hrow. fold t in Hrow.
  exists t. split; [done|]. split; [done|]. split.
  - intros j Hj. destruct Hnt as [Hsh Hinv].
    eapply getitem3; try done. rewrite Hinv by (done || nia).
    rewrite (bool_decide_ext (s * A + a < S * A ∧ j = target (transition m) (s * A + a))
               (j = t)); [done|]. fold t. nia.
  - intros G R g.
    set (here := set_state (scalar_array (SInt (Z.of_nat s)))).
    assert (det_wf S A (here m)) as Hwf1 by (by destruct Hwf).
    destruct (det_step_in_range S A (here m) g s a Hwf1 eq_refl Hs Ha)
      as (r & d & t' & Hr & Hd & Ht' & Hstep1).
    simpl in Hr, Hd, Ht'. rewrite Hx in Ht'. injection Ht' as <-.
    assert (sto_wf S A (here (mk_MDP Stochastic (scalar_array (SInt 0)) nt
                                (reward m) (terminal m)))) as Hwf2.
    { destruct Hwf as [_ _ Hrw Htm]. split; simpl; try done; try apply Hnt.
      intros s' a' Hs' Ha'.
      assert (s' * A + a' < length (data (transition m))) as Hp'.
      { destruct Hwf1 as [_ [_ Hl] _ _]. simpl in Hl. rewrite Hl. simpl. nia. }
      destruct (target_lookup _ _ _ Hidx Hp') as [_ Ht''].
      rewrite (one_hot_upto_row _ _ _ _ s' a' Hnt Hs' Ha' Ht'').
      by apply one_hot_distribution. }
    destruct (sto_step_in_range S A _ g s a Hwf2 eq_refl Hs Ha)
      as (r' & d' & Hr2 & Hd2 & _ & Hstep2).
    simpl in Hr2, Hd2. rewrite Hr in Hr2. rewrite Hd in Hd2.
    injection Hr2 as <-. injection Hd2 as <-.
    simpl in Hstep2. rewrite Hrow in Hstep2.
    rewrite sample_index_one_hot in Hstep2
      by (done || apply random_sample_range).
    exists (scalar_array r), (scalar_array d).
    rewrite Hstep1. unfold here in *. rewrite Hstep2. done.
Qed.

Lemma scenario_indices : indices_below 2 (transition scenario_mdp).
Proof.
  apply Forall_cons. split; [exists 1; split; [done|lia]|].
  apply Forall_cons. split; [exists 0; split; [done|lia]|].
  apply Forall_nil_2.
Qed.

Lemma C4_witness :
  ∃ sm, from_deterministic scenario_mdp = Ok sm ∧
        cls sm = Stochastic ∧
        has_shape [2; 1; 2] (transition sm) ∧
        reward sm = reward scenario_mdp ∧
        terminal sm = terminal scenario_mdp.
Proof.
  destruct (C4_from_deterministic_preserves_step 2 1 scenario_mdp
              scenario_mdp_wf scenario_indices)
    as (sm & Hfrom & Hcls & Hsh & Hr & Ht & _).
  exists sm. exact (conj Hfrom (conj Hcls (conj Hsh (conj Hr Ht)))).
Defined.

(* ------------------------------------------------------------------ *)
(** * Episodes *)

Section Episode.
Context {G : Type} `{RandomSource G}.





End Episode.

Section Boundary.
Context {G : Type} `{RandomSource G}.

Lemma FiniteMDP_reset_run (env : FiniteMDP G) (m : MDP) :
  mdp env = Some m →
  FiniteMDP_reset env
  = (Ok (scalar_array (SInt 0)),
     mk_FiniteMDP G (np_random env) (config env)
       (Some (set_state (scalar_array (SInt 0)) m)) 0
       (observation_space env) (action_space env)).
Proof.
  intros Hm. unfold FiniteMDP_reset, on_mdp, on_self, MDP_reset. unfold_monad.
  simpl. by rewrite Hm.
Qed.



End Boundary.



(* ------------------------------------------------------------------ *)
(** * randomize *)

Lemma draws_length {G X} (f : G → X * G) n : ∀ g, length (draws f n g).1 = n.
Proof.
  induction n as [|n IH]; intros g; simpl; [done|].
  destruct (f g) as [x g1]. specialize (IH g1).
  destruct (draws f n g1) as [xs g2]. simpl in *. by rewrite IH.
Qed.

Lemma draws_Forall {G X} (f : G → X * G) (P : X → Prop) n :
  (∀ g, P (f g).1) → ∀ g, Forall P (draws f n g).1.
Proof.
  intros Hf. induction n as [|n IH]; intros g; simpl; [done|].
  pose proof (Hf g) as Hx. destruct (f g) as [x g1]. specialize (IH g1).
  destruct (draws f n g1) as [xs g2]. simpl in *. by constructor.
Qed.

Lemma after_draws_S {G X} (f : G → X * G) k g :
  after_draws f (S k) g = after_draws f k (f g).2.
Proof. unfold after_draws. by rewrite Nat.iter_succ_r. Qed.

(** The list [draws] returns holds the draws of the run in their order,
    and the source it returns is the source after them. *)
Lemma draws_spec {G X} (f : G → X * G) n : ∀ g,
  (draws f n g).2 = after_draws f n g ∧
  ∀ k, k < n → (draws f n g).1 !! k = Some (nth_draw f k g).
Proof.
  induction n as [|n IH]; intros g; [split; [done|lia]|].
  cbn [draws]. destruct (f g) as [x g1] eqn:Hf.
  destruct (IH g1) as [IH1 IH2].
  destruct (draws f n g1) as [xs g2]. cbn [fst snd] in *. split.
  - rewrite after_draws_S, Hf. exact IH1.
  - intros [|k] Hk.
    + unfold nth_draw, after_draws. simpl. by rewrite Hf.
    + rewrite lookup_cons_ne_0 by lia. cbn [Nat.pred]. rewrite IH2 by lia.
      unfold nth_draw. by rewrite after_draws_S, Hf.
Qed.

Section Randomize.
Context {G : Type} `{RandomSource G}.

Lemma rng_rand_drawn (sh : list nat) (g : G) :
  ∃ a, rng_rand sh g = (Ok a, after_draws random_sample (product sh) g) ∧
       drawn_table random_sample SFloat sh g a ∧
       Forall unit_float (data a).
Proof.
  unfold rng_rand.
  pose proof (draws_length random_sample (product sh) g) as Hlen.
  pose proof (draws_spec random_sample (product sh) g) as [Hsrc Hnth].
  pose proof (draws_Forall random_sample
                (λ q, (0 <= q)%Q ∧ (q < 1)%Q) (product sh)
                random_sample_range g) as Hall.
  destruct (draws random_sample (product sh) g) as [xs g']. simpl in *.
  subst g'. eexists. split; [done|]. split; [split; [split|]|]; simpl.
  - done.
  - by rewrite length_fmap.
  - intros k Hk. by rewrite list_lookup_fmap, Hnth.
  - apply Forall_fmap. eapply Forall_impl; [exact Hall|].
    intros q Hq. by exists q.
Qed.

Lemma rng_choice_range_drawn (S : nat) (rest : list nat) (g : G) :
  ∃ a, rng_choice_range S (S :: rest) g
       = (Ok a, after_draws (randint S) (product (S :: rest)) g) ∧
       drawn_table (randint S) (λ i, SInt (Z.of_nat i)) (S :: rest) g a ∧
       Forall (state_index S) (data a).
Proof.
  unfold rng_choice_range.
  rewrite bool_decide_eq_false_2 by (simpl; nia).
  pose proof (draws_length (randint S) (product (S :: rest)) g) as Hlen.
  pose proof (draws_spec (randint S) (product (S :: rest)) g) as [Hsrc Hnth].
  assert (Forall (λ i, i < S) (draws (randint S) (product (S :: rest)) g).1) as Hall.
  { destruct (decide (S = 0)) as [->|HS]; [simpl; constructor|].
    assert (0 < S) as HS' by lia.
    exact (draws_Forall (randint S) (λ i, i < S) (product (S :: rest))
             (λ g0, randint_range S g0 HS') g). }
  destruct (draws (randint S) (product (S :: rest)) g) as [xs g'].
  cbn [fst snd] in *. subst g'. eexists. split; [done|].
  split; [split; [split|]|]; cbn [shape data].
  - done.
  - by rewrite length_fmap.
  - intros k Hk. by rewrite list_lookup_fmap, Hnth.
  - apply Forall_fmap. eapply Forall_impl; [exact Hall|].
    intros i Hi. exists (Z.of_nat i). simpl in *. split; [done|lia].
Qed.

Lemma rng_rand_spec (sh : list nat) (g : G) :
  ∃ d g', rng_rand sh g = (Ok (mk_ndarray sh d), g') ∧
          length d = product sh ∧ Forall unit_float d.
Proof.
  unfold rng_rand.
  pose proof (draws_length random_sample (product sh) g) as Hlen.
  pose proof (draws_Forall random_sample
                (λ q, (0 <= q)%Q ∧ (q < 1)%Q) (product sh)
                random_sample_range g) as Hall.
  destruct (draws random_sample (product sh) g) as [xs g']. simpl in *.
  exists (SFloat <$> xs), g'. split; [done|]. split.
  - by rewrite length_fmap.
  - apply Forall_fmap. eapply Forall_impl; [exact Hall|].
    intros q Hq. by exists q.
Qed.

Lemma rng_choice_range_spec (S : nat) (rest : list nat) (g : G) :
  ∃ d g', rng_choice_range S (S :: rest) g = (Ok (mk_ndarray (S :: rest) d), g') ∧
          length d = product (S :: rest) ∧ Forall (state_index S) d.
Proof.
  unfold rng_choice_range.
  rewrite bool_decide_eq_false_2 by (simpl; nia).
  pose proof (draws_length (randint S) (product (S :: rest)) g) as Hlen.
  destruct (decide (S = 0)) as [->|HS].
  - simpl. exists [], g. by repeat split.
  - assert (0 < S) as HS' by lia.
    pose proof (draws_Forall (randint S) (λ i, i < S) (product (S :: rest))
                  (λ g0, randint_range S g0 HS') g) as Hall.
    destruct (draws (randint S) (product (S :: rest)) g) as [xs g']. simpl in *.
    eexists _, g'. split; [done|]. split.
    + by rewrite length_fmap.
    + apply Forall_fmap. eapply Forall_impl; [exact Hall|].
      intros i Hi. exists (Z.of_nat i). simpl in *. split; [done|lia].
Qed.

Lemma randomize_frame (m : MDP) (g : G) :
  (cls m = Deterministic → shape (transition m) ≠ []) →
  ∃ m' g',
    randomize (m, g) = (Ok (), (m', g')) ∧
    cls m' = cls m ∧ state m' = state m ∧ terminal m' = terminal m ∧
    has_shape (shape (reward m)) (reward m') ∧
    Forall unit_float (data (reward m')).
Proof.
  intros Hsh. unfold randomize. simpl.
  destruct (cls m) eqn:Hcls.
  - destruct (shape (transition m)) as [|S rest] eqn:Hshape; [by destruct Hsh|].
    destruct (rng_choice_range_spec S rest g) as (d & g1 & Hchoice & _).
    destruct (rng_rand_spec (shape (reward m)) g1) as (d' & g2 & Hrand & Hlen & Hall).
    unfold DeterministicMDP_randomize, on_rng, on_self, shape_at, np_shape.
    unfold_monad. simpl. rewrite Hshape. simpl. rewrite Hchoice. simpl.
    rewrite Hrand. simpl. eexists _, _. split; [done|]. by repeat split.
  - destruct (rng_rand_spec (shape (transition m)) g) as (d & g1 & Hrand & _).
    destruct (rng_rand_spec (shape (reward m)) g1) as (d' & g2 & Hrand' & Hlen & Hall).
    unfold StochasticMDP_randomize, on_rng, on_self, np_shape.
    unfold_monad. simpl. rewrite Hrand. simpl. rewrite Hrand'. simpl.
    eexists _, _. split; [done|]. by repeat split.
Qed.

(** C9. For both classes [randomize] does not raise (the deterministic
    one on a transition table with at least one axis), and replaces
    [transition] and [reward] by arrays of the shapes they had, filled
    to those shapes; the class, the state and [terminal] are as before.
    In the deterministic class every new transition entry is an integer
    in [[0, S)] for [S] the length of the first axis; every new reward
    entry, and in the stochastic class every new transition entry, is a
    float in [[0, 1)].  The new entries are the draws of the random
    source passed in: the transition table holds, in row-major order, the
    first draws of the run that starts at that source (integers below [S]
    in the deterministic class, floats in the stochastic one), the reward
    table holds the float draws that follow them, and the source left
    behind is the one after all these draws. *)
Theorem C9_randomize_preserves_shapes (m : MDP) (g : G) :
  (cls m = Deterministic → shape (transition m) ≠ []) →
  ∃ m' g',
    randomize (m, g) = (Ok (), (m', g')) ∧
    has_shape (shape (transition m)) (transition m') ∧
    has_shape (shape (reward m)) (reward m') ∧
    cls m' = cls m ∧ state m' = state m ∧ terminal m' = terminal m ∧
    (cls m = Deterministic →
     ∀ S, shape (transition m) !! 0 = Some S →
          Forall (state_index S) (data (transition m'))) ∧
    (cls m = Stochastic → Forall unit_float (data (transition m'))) ∧
    Forall unit_float (data (reward m')) ∧
    (cls m = Deterministic →
     ∀ S, shape (transition m) !! 0 = Some S →
       let g1 := after_draws (randint S) (np_size (transition m)) g in
       drawn_table (randint S) (λ i, SInt (Z.of_nat i))
         (shape (transition m)) g (transition m') ∧
       drawn_table random_sample SFloat (shape (reward m)) g1 (reward m') ∧
       g' = after_draws random_sample (np_size (reward m)) g1) ∧
    (cls m = Stochastic →
       let g1 := after_draws random_sample (np_size (transition m)) g in
       drawn_table random_sample SFloat (shape (transition m)) g (transition m') ∧
       drawn_table random_sample SFloat (shape (reward m)) g1 (reward m') ∧
       g' = after_draws random_sample (np_size (reward m)) g1).
Proof.
  intros Hsh. unfold randomize, np_size. simpl.
  destruct (cls m) eqn:Hcls.
  - destruct (shape (transition m)) as [|S rest] eqn:Hshape; [by destruct Hsh|].
    destruct (rng_choice_range_drawn S rest g) as (t & Hchoice & Ht & Hall).
    destruct (rng_rand_drawn (shape (reward m))
                (after_draws (randint S) (product (S :: rest)) g))
      as (r & Hrand & Hr & Hall').
    unfold DeterministicMDP_randomize, on_rng, on_self, shape_at, np_shape.
    unfold_monad. simpl. rewrite Hshape. simpl.
    cbn [product foldr] in Hchoice. rewrite Hchoice. simpl.
    cbn [product foldr] in Hrand. rewrite Hrand. simpl.
    eexists _, _. split; [done|]. simpl.
    split; [exact (proj1 Ht)|]. split; [exact (proj1 Hr)|].
    do 3 (split; [done|]).
    split; [by intros _ S' [= <-]|]. split; [done|]. split; [done|].
    split; [|done]. intros _ S' [= <-]. exact (conj Ht (conj Hr eq_refl)).
  - destruct (rng_rand_drawn (shape (transition m)) g) as (t & Hrand & Ht & Hall).
    destruct (rng_rand_drawn (shape (reward m))
                (after_draws random_sample (product (shape (transition m))) g))
      as (r & Hrand' & Hr & Hall').
    unfold StochasticMDP_randomize, on_rng, on_self, np_shape.
    unfold_monad. simpl. rewrite Hrand. simpl. rewrite Hrand'. simpl.
    eexists _, _. split; [done|]. simpl.
    split; [exact (proj1 Ht)|]. split; [exact (proj1 Hr)|].
    do 3 (split; [done|]).
    split; [done|]. split; [done|]. split; [done|].
    split; [done|]. intros _. exact (conj Ht (conj Hr eq_refl)).
Qed.

End Randomize.

Lemma C9_witness :
  ∃ m' g',
    randomize (scenario_mdp, 42%Z) = (Ok (), (m', g')) ∧
    has_shape [2; 1] (transition m') ∧
    has_shape [2; 1] (reward m') ∧
    Forall (state_index 2) (data (transition m')) ∧
    Forall unit_float (data (reward m')) ∧
    data (transition m') !! 0 = Some (SInt 0) ∧
    data (reward m') !! 0 = Some (SFloat (1116302264 # 2147483648)) ∧
    g' = 1668674806%Z.
Proof.
  destruct (C9_randomize_preserves_shapes scenario_mdp 42%Z)
    as (m' & g' & Hrun & Ht & Hr & _ & _ & _ & Hidx & _ & Hrw & Hdet & _).
  - intros _. discriminate.
  - destruct (Hdet eq_refl 2 eq_refl) as ([_ Htd] & [_ Hrd] & Hg).
    assert (0 < product [2; 1]) as H0 by (simpl; lia).
    exists m', g'.
    exact (conj Hrun (conj Ht (conj Hr (conj (Hidx eq_refl 2 eq_refl) (conj Hrw
             (conj (Htd 0 H0) (conj (Hrd 0 H0) Hg))))))).
Defined.

(* ------------------------------------------------------------------ *)
(** * from_config *)

Lemma is_str_true s v : is_str s v = true ↔ v = PStr s.
Proof.
  destruct v; simpl; try (split; [discriminate|by intros [=]]).
  rewrite String.eqb_eq. split; [by intros ->|by intros [= ->]].
Qed.

Lemma is_str_mode (c : Config) s :
  is_str s (dict_get "mode" PNone c) = true ↔ c !! "mode" = Some (PStr s).
Proof.
  rewrite is_str_true. unfold dict_get.
  destruct (c !! "mode") as [v|]; simpl; [|by split].
  split; [by intros ->|by intros [= ->]].
Qed.

Lemma numeric_tables_get (c : Config) k :
  numeric_tables c → k ∈ ["transition"; "reward"; "terminal"] →
  ∃ a, np_array (dict_get k (PList []) c) = Ok a.
Proof.
  intros Hc Hk. unfold dict_get. destruct (c !! k) as [v|] eqn:E; simpl.
  - by eapply Hc.
  - by eexists.
Qed.

(** The constructor: the default of [terminal]. *)
Lemma DeterministicMDP__init__run cl tr rw tm :
  DeterministicMDP__init__ cl tr rw (Some tm)
  = if bool_decide (np_size tm = 0)
    then match shape tr !! 0 with
         | Some n => Ok (mk_MDP cl (scalar_array (SInt 0)) tr rw (np_zeros [n]))
         | None => Raise (IndexError "tuple index out of range")
         end
    else Ok (mk_MDP cl (scalar_array (SInt 0)) tr rw tm).
Proof.
  unfold DeterministicMDP__init__, shape_at. unfold_monad.
  case_bool_decide; [|done]. by destruct (shape tr !! 0).
Qed.

Section FromConfig.
Context {G : Type} `{RandomSource G}.

Lemma randomize_raise (m : MDP) (g : G) e w :
  randomize (m, g) = (Raise e, w) → e ≠ unknown_mode.
Proof.
  unfold randomize. simpl. destruct (cls m).
  - unfold DeterministicMDP_randomize, on_rng, on_self, shape_at, np_shape.
    unfold_monad. simpl.
    destruct (shape (transition m) !! 0) as [n|]; [|by intros [= <- _]].
    unfold rng_choice_range. case_bool_decide; [by intros [= <- _]|].
    destruct (draws (randint n) _ g) as [xs g1]. simpl.
    unfold rng_rand. destruct (draws random_sample _ g1) as [ys g2]. done.
  - unfold StochasticMDP_randomize, on_rng, on_self, np_shape.
    unfold_monad. simpl.
    unfold rng_rand. destruct (draws random_sample _ g) as [xs g1]. simpl.
    destruct (draws random_sample _ g1) as [ys g2]. done.
Qed.

Lemma randomize_cls (m : MDP) (g : G) : cls (randomize (m, g)).2.1 = cls m.
Proof.
  unfold randomize. simpl. destruct (cls m) eqn:Hcls.
  - unfold DeterministicMDP_randomize, on_rng, on_self, shape_at, np_shape.
    unfold_monad. simpl.
    destruct (shape (transition m) !! 0) as [n|]; [|done].
    unfold rng_choice_range. case_bool_decide; [done|].
    destruct (draws (randint n) _ g) as [xs g1]. simpl.
    unfold rng_rand. destruct (draws random_sample _ g1) as [ys g2]. done.
  - unfold StochasticMDP_randomize, on_rng, on_self, np_shape.
    unfold_monad. simpl.
    unfold rng_rand. destruct (draws random_sample _ g) as [xs g1]. simpl.
    destruct (draws random_sample _ g1) as [ys g2]. done.
Qed.

(** [from_config] once the three tables are converted. *)
Lemma from_config_run (c : Config) (g : G) tr rw tm :
  np_array (dict_get "transition" (PList []) c) = Ok tr →
  np_array (dict_get "reward" (PList []) c) = Ok rw →
  np_array (dict_get "terminal" (PList []) c) = Ok tm →
  from_config c g
  = match (if is_str "deterministic" (dict_get "mode" PNone c)
           then DeterministicMDP tr rw (Some tm)
           else if is_str "stochastic" (dict_get "mode" PNone c)
           then StochasticMDP tr rw (Some tm)
           else Raise unknown_mode) with
    | Ok m =>
        if truthy (dict_get "random" (PBool false) c)
        then call_on m randomize g
        else (Ok m, g)
    | Raise e => (Raise e, g)
    end.
Proof.
  intros Htr Hrw Htm. unfold from_config. unfold_monad.
  rewrite Htr, Hrw, Htm.
  destruct (is_str "deterministic" _); [|destruct (is_str "stochastic" _)]; try done.
  - destruct (DeterministicMDP tr rw (Some tm)); [|done].
    by destruct (truthy _).
  - destruct (StochasticMDP tr rw (Some tm)); [|done].
    by destruct (truthy _).
Qed.

Lemma from_config_cases (c : Config) (g : G) :
  numeric_tables c →
  (¬ recognized_mode c ∧ from_config c g = (Raise unknown_mode, g)) ∨
  (∃ cl, c !! "mode" = Some (PStr (mode_tag cl)) ∧
         ((∃ e g', from_config c g = (Raise e, g') ∧ e ≠ unknown_mode) ∨
          (∃ m g', from_config c g = (Ok m, g') ∧ cls m = cl))).
Proof.
  intros Hc.
  destruct (numeric_tables_get c "transition" Hc) as [tr Htr]; [set_solver|].
  destruct (numeric_tables_get c "reward" Hc) as [rw Hrw]; [set_solver|].
  destruct (numeric_tables_get c "terminal" Hc) as [tm Htm]; [set_solver|].
  rewrite (from_config_run c g tr rw tm Htr Hrw Htm).
  assert (∀ cl, ∃ r, DeterministicMDP__init__ cl tr rw (Some tm) = r ∧
            (r = Raise (IndexError "tuple index out of range") ∨
             ∃ m, r = Ok m ∧ cls m = cl)) as Hinit.
  { intros cl. eexists. split; [reflexivity|]. rewrite DeterministicMDP__init__run.
    case_bool_decide; [destruct (shape tr !! 0)|]; eauto. }
  assert (∀ m, ∃ out, (if truthy (dict_get "random" (PBool false) c)
                       then call_on m randomize g else (Ok m, g)) = out ∧
            ((∃ e g', out = (Raise e, g') ∧ e ≠ unknown_mode) ∨
             (∃ m' g', out = (Ok m', g') ∧ cls m' = cls m))) as Hrand.
  { intros m. eexists. split; [reflexivity|].
    destruct (truthy _); [|right; eauto].
    unfold call_on. pose proof (randomize_cls m g) as Hcls.
    destruct (randomize (m, g)) as [[u|e] [m' g']] eqn:Hr; simpl in Hcls.
    - right. eauto.
    - left. exists e, g'. split; [done|]. by eapply randomize_raise. }
  destruct (is_str "deterministic" _) eqn:Hdet.
  { right. exists Deterministic. apply is_str_mode in Hdet. split; [done|].
    unfold DeterministicMDP.
    destruct (Hinit Deterministic) as (r & -> & [->|(m & -> & Hm)]).
    - left. by eexists _, _.
    - destruct (Hrand m) as (out & -> & [?|(m' & g' & -> & Hm')]); [by left|].
      right. exists m', g'. split; [done|]. congruence. }
  destruct (is_str "stochastic" _) eqn:Hsto.
  { right. exists Stochastic. apply is_str_mode in Hsto. split; [done|].
    unfold StochasticMDP.
    destruct (Hinit Stochastic) as (r & -> & [->|(m & -> & Hm)]).
    - left. by eexists _, _.
    - destruct (Hrand m) as (out & -> & [?|(m' & g' & -> & Hm')]); [by left|].
      right. exists m', g'. split; [done|]. congruence. }
  left. split; [|done]. intros [Hm|Hm]; apply is_str_mode in Hm; congruence.
Qed.


End FromConfig.

Lemma np_array_shape v a : np_array v = Ok a → shape a = shape_of v.
Proof.
  unfold np_array. destruct (leaves _ v); [|done]. by intros [= <-].
Qed.

Lemma np_zeros_1d n : np_zeros [n] = mk_ndarray [n] (replicate n (SFloat 0)).
Proof. unfold np_zeros. simpl. by rewrite Nat.mul_1_r. Qed.

Section Terminal.
Context {G : Type} `{RandomSource G}.

(** [from_config] on a recognized mode and a transition table with a
    first axis: it returns a model, with the tables of the constructor
    unless [random] asks for new ones. *)
Lemma from_config_ok (c : Config) (g : G) cl tr rw tm S :
  c !! "mode" = Some (PStr (mode_tag cl)) →
  np_array (dict_get "transition" (PList []) c) = Ok tr →
  np_array (dict_get "reward" (PList []) c) = Ok rw →
  np_array (dict_get "terminal" (PList []) c) = Ok tm →
  shape tr !! 0 = Some S →
  let tm' := if bool_decide (np_size tm = 0) then np_zeros [S] else tm in
  ∃ m g',
    from_config c g = (Ok m, g') ∧ cls m = cl ∧ terminal m = tm' ∧
    state m = scalar_array (SInt 0) ∧
    (truthy (dict_get "random" (PBool false) c) = false →
     g' = g ∧ transition m = tr ∧ reward m = rw).
Proof.
  intros Hmode Htr Hrw Htm HS tm'.
  rewrite (from_config_run c g tr rw tm Htr Hrw Htm).
  assert ((if is_str "deterministic" (dict_get "mode" PNone c)
           then DeterministicMDP tr rw (Some tm)
           else if is_str "stochastic" (dict_get "mode" PNone c)
           then StochasticMDP tr rw (Some tm)
           else Raise unknown_mode)
          = Ok (mk_MDP cl (scalar_array (SInt 0)) tr rw tm')) as ->.
  { unfold DeterministicMDP, StochasticMDP.
    rewrite !DeterministicMDP__init__run, HS. fold tm'.
    destruct cl; simpl in Hmode.
    - apply is_str_mode in Hmode. rewrite Hmode. by case_bool_decide.
    - assert (is_str "deterministic" (dict_get "mode" PNone c) = false) as ->.
      { apply not_true_is_false. rewrite is_str_mode, Hmode. by intros [=]. }
      apply is_str_mode in Hmode. rewrite Hmode. by case_bool_decide. }
  destruct (truthy (dict_get "random" (PBool false) c)).
  - set (m0 := mk_MDP cl (scalar_array (SInt 0)) tr rw tm').
    destruct (randomize_frame m0 g) as (m' & g' & Hrun & Hcls & Hst & Hterm & _).
    { intros _. simpl. intros E. by rewrite E in HS. }
    exists m', g'. unfold call_on. rewrite Hrun. by repeat split.
  - eexists _, g. by repeat split.
Qed.

(** C5. For a configuration whose table entries are numeric arrays,
    [from_config] raises the unknown-mode error exactly when the [mode]
    entry is absent or is neither "deterministic" nor "stochastic"; it
    then returns no model and has drawn nothing from the random source.
    When the mode is recognized it never raises that error, a model it
    returns is of the class the mode names, and it does return one when
    the transition table has a first axis. *)
Theorem C5_from_config_unknown_mode (c : Config) (g : G) :
  numeric_tables c →
  ((from_config c g).1 = Raise unknown_mode ↔ ¬ recognized_mode c) ∧
  (¬ recognized_mode c → from_config c g = (Raise unknown_mode, g)) ∧
  (∀ m, (from_config c g).1 = Ok m → c !! "mode" = Some (PStr (mode_tag (cls m)))) ∧
  (recognized_mode c →
   (∃ S rest, shape_of (dict_get "transition" (PList []) c) = S :: rest) →
   ∃ m g', from_config c g = (Ok m, g') ∧
           c !! "mode" = Some (PStr (mode_tag (cls m)))).
Proof.
  intros Hc. split; [|split; [|split]].
  - destruct (from_config_cases c g Hc)
      as [[Hno Hrun]|(cl & Hmode & Hcases)].
    { by rewrite Hrun. }
    assert (recognized_mode c) as Hrec.
    { unfold recognized_mode. rewrite Hmode. destruct cl; eauto. }
    destruct Hcases as [(e & g' & Hrun & He)|(m & g' & Hrun & Hm)];
      rewrite Hrun; simpl; split; try done.
    intros [= ->]. done.
  - intros Hno.
    destruct (from_config_cases c g Hc) as [[_ Hrun]|(cl & Hmode & _)]; [done|].
    destruct Hno. unfold recognized_mode. rewrite Hmode. destruct cl; eauto.
  - intros m Hm.
    destruct (from_config_cases c g Hc)
      as [[_ Hrun]|(cl & Hmode & [(e & g' & Hrun & _)|(m' & g' & Hrun & Hcl)])];
      rewrite Hrun in Hm; simpl in Hm; try done.
    injection Hm as <-. by rewrite Hcl.
  - intros Hrec (S & rest & Haxis).
    destruct (numeric_tables_get c "transition" Hc) as [tr Htr]; [set_solver|].
    destruct (numeric_tables_get c "reward" Hc) as [rw Hrw]; [set_solver|].
    destruct (numeric_tables_get c "terminal" Hc) as [tm Htm]; [set_solver|].
    assert (∃ cl, c !! "mode" = Some (PStr (mode_tag cl))) as [cl Hmode].
    { destruct Hrec; [by exists Deterministic|by exists Stochastic]. }
    assert (shape tr !! 0 = Some S) as HS.
    { by rewrite (np_array_shape _ _ Htr), Haxis. }
    destruct (from_config_ok c g cl tr rw tm S Hmode Htr Hrw Htm HS)
      as (m & g' & Hrun & Hcls & _).
    exists m, g'. by rewrite Hcls.
Qed.

(** C6. For a configuration with a recognized mode, numeric tables and a
    transition table with a first axis of length [S], [from_config]
    returns a model; when the [terminal] entry is absent or empty
    (size 0) the model's [terminal] is the vector of [S] zeros, which
    marks no state terminal, and when a non-empty [terminal] is supplied
    the model's [terminal] is the array of that entry. *)
Theorem C6_terminal_defaults_to_zeros (c : Config) (g : G) (tr : ndarray) (S : nat) :
  recognized_mode c → numeric_tables c →
  np_array (dict_get "transition" (PList []) c) = Ok tr →
  shape tr !! 0 = Some S →
  ∃ tm m g',
    np_array (dict_get "terminal" (PList []) c) = Ok tm ∧
    from_config c g = (Ok m, g') ∧
    (c !! "terminal" = None → np_size tm = 0) ∧
    (np_size tm = 0 →
     terminal m = mk_ndarray [S] (replicate S (SFloat 0)) ∧ never_terminal m) ∧
    (np_size tm ≠ 0 → terminal m = tm).
Proof.
  intros Hrec Hc Htr HS.
  destruct (numeric_tables_get c "reward" Hc) as [rw Hrw]; [set_solver|].
  destruct (numeric_tables_get c "terminal" Hc) as [tm Htm]; [set_solver|].
  assert (∃ cl, c !! "mode" = Some (PStr (mode_tag cl))) as [cl Hmode].
  { destruct Hrec; [by exists Deterministic|by exists Stochastic]. }
  destruct (from_config_ok c g cl tr rw tm S Hmode Htr Hrw Htm HS)
    as (m & g' & Hrun & _ & Hterm & _).
  exists tm, m, g'. split; [done|]. split; [done|]. split; [|split].
  - intros Habs. unfold dict_get in Htm. rewrite Habs in Htm. simpl in Htm.
    by injection Htm as <-.
  - intros Hz. unfold never_terminal.
    rewrite Hterm, bool_decide_eq_true_2, np_zeros_1d by done. simpl.
    split; [done|]. by apply Forall_replicate.
  - intros Hnz. by rewrite Hterm, bool_decide_eq_false_2.
Qed.

End Terminal.

Lemma C5_witness :
  (from_config partial_config 42%Z).1 = Raise unknown_mode ∧
  ¬ recognized_mode partial_config.
Proof.
  destruct (C5_from_config_unknown_mode partial_config 42%Z partial_config_numeric)
    as (Hiff & Hraise & _).
  assert (¬ recognized_mode partial_config) as Hno.
  { intros [Hm|Hm]; vm_compute in Hm; discriminate. }
  split; [|exact Hno]. apply Hiff. exact Hno.
Defined.

Lemma default_config_numeric : numeric_tables default_config.
Proof.
  intros k v Hin. unfold default_config.
  destruct (decide (k = "mode")) as [->|H1].
  { apply list_elem_of_In in Hin. simpl in Hin.
    destruct Hin as [?|[?|[?|[]]]]; discriminate. }
  rewrite lookup_insert_ne by done.
  destruct (decide (k = "transition")) as [->|H2].
  { rewrite lookup_insert_eq. intros [= <-]. by eexists. }
  rewrite lookup_insert_ne by done.
  destruct (decide (k = "reward")) as [->|H3].
  { rewrite lookup_insert_eq. intros [= <-]. by eexists. }
  by rewrite lookup_insert_ne, lookup_empty by done.
Qed.

Lemma C6_witness :
  ∃ m g',
    from_config default_config 42%Z = (Ok m, g') ∧
    terminal m = mk_ndarray [1] [SFloat 0].
Proof.
  destruct (C6_terminal_defaults_to_zeros default_config 42%Z
              (mk_ndarray [1; 1] [SInt 0]) 1)
    as (tm & m & g' & Htm & Hrun & Habs & Hzero & _).
  - left. reflexivity.
  - exact default_config_numeric.
  - reflexivity.
  - reflexivity.
  - exists m, g'. split; [exact Hrun|]. apply Hzero. apply Habs. reflexivity.
Defined.

(* ------------------------------------------------------------------ *)
(** * The round trip through arrays *)

Lemma result_kind_le (d : list scalar) x : x ∈ d → kind_le (kind_of x) (result_kind d).
Proof.
  induction d as [|y d IH]; [by intros ?%elem_of_nil|].
  intros [->|Hx]%elem_of_cons; simpl; unfold kind_le in *.
  - by destruct (kind_of y), (result_kind d).
  - specialize (IH Hx). by destruct (kind_of x), (kind_of y), (result_kind d).
Qed.

Lemma round53_exact z : (Z.abs z ≤ 2 ^ 53)%Z → round53 z = z.
Proof. intros Hz. unfold round53. by rewrite (proj2 (Z.leb_le _ _) Hz). Qed.

(** Conversion to the common dtype keeps the value. *)
Lemma cast_eqv k x :
  kind_le (kind_of x) k → (k = KFloat → exact_scalar x) → scalar_eqv (cast k x) x.
Proof.
  unfold kind_le, scalar_eqv.
  destruct k, x as [[]|z|q]; simpl; try done; intros _ Hz.
  unfold float_of_int. simpl. by rewrite (Hz eq_refl).
Qed.

Lemma chunk_join {X} (ds : list (list X)) k :
  Forall (λ d, length d = k) ds →
  ∀ i di, ds !! i = Some di → take k (drop (i * k) (mjoin ds)) = di.
Proof.
  induction 1 as [|d ds Hd Hds IH]; intros [|i] di; simpl; try done.
  - intros [= ->]. rewrite drop_0. by rewrite take_app_length'.
  - intros Hi. rewrite drop_app_add' by done. by apply IH.
Qed.

Lemma length_join_uniform {X} (ds : list (list X)) k :
  Forall (λ d, length d = k) ds → length (mjoin ds) = length ds * k.
Proof.
  induction 1 as [|d ds Hd Hds IH]; simpl; [done|].
  rewrite length_app, IH. lia.
Qed.

(** [tolist] after [array] gives back the nested sequence, entry by entry
    up to the conversion [f] of the entries. *)
Lemma leaves_unflatten (f : scalar → scalar) sh : ∀ v d,
  leaves sh v = Some d →
  (∀ x, x ∈ d → scalar_eqv (f x) x) →
  length d = product sh ∧ pyval_eqv (unflatten sh (f <$> d)) v.
Proof.
  induction sh as [|n sh IH]; intros v d Hleaves Hf.
  - destruct v; simpl in Hleaves; try done. injection Hleaves as <-.
    split; [done|]. simpl. constructor. apply Hf. set_solver.
  - destruct v as [| | |l]; simpl in Hleaves; try done.
    case_decide as Hn; [|done].
    destruct (mapM (leaves sh) l) as [ds|] eqn:Hds; [|done].
    simpl in Hleaves. injection Hleaves as <-.
    apply mapM_Some_1 in Hds.
    assert (∀ i li di, l !! i = Some li → ds !! i = Some di →
              length di = product sh ∧ pyval_eqv (unflatten sh (f <$> di)) li) as Hi.
    { intros i li di Hli Hdi. apply IH.
      - pattern li, di. eapply Forall2_lookup_lr; [exact Hds|exact Hli|exact Hdi].
      - intros x Hx. apply Hf. apply list_elem_of_join. exists di. split; [done|].
        by eapply list_elem_of_lookup_2. }
    assert (Forall (λ d, length d = product sh) ds) as Hlen.
    { apply Forall_lookup. intros i di Hdi.
      destruct (Forall2_lookup_r _ _ _ _ _ Hds Hdi) as (li & Hli & _).
      by eapply Hi. }
    split.
    + rewrite (length_join_uniform _ _ Hlen). simpl.
      by rewrite <- (Forall2_length _ _ _ Hds), Hn.
    + simpl. constructor. apply Forall2_same_length_lookup. split.
      * by rewrite length_fmap, length_seq.
      * intros i x li Hx Hli.
        apply list_lookup_fmap_Some in Hx as (j & -> & Hj).
        apply lookup_seq in Hj as [-> Hj]. simpl.
        destruct (Forall2_lookup_l _ _ _ _ _ Hds Hli) as (di & Hdi & _).
        rewrite <- fmap_drop, <- fmap_take, (chunk_join _ _ Hlen _ _ Hdi).
        by eapply Hi.
Qed.

Lemma tolist_np_array (v : pyval) :
  valid_table v → ∃ a, np_array v = Ok a ∧ pyval_eqv (tolist a) v.
Proof.
  intros (d & Hd & Hexact). unfold np_array. rewrite Hd.
  eexists. split; [done|]. unfold tolist. simpl.
  apply leaves_unflatten; [done|].
  intros x Hx. apply cast_eqv.
  - by apply result_kind_le.
  - intros Hk. specialize (Hexact (or_introl Hk)).
    rewrite Forall_forall in Hexact. by apply Hexact.
Qed.

(* ------------------------------------------------------------------ *)
(** * The round trip through from_config and to_config *)

Lemma valid_table_get (c : Config) k :
  (∀ k v, k ∈ table_keys → c !! k = Some v → valid_table v) →
  k ∈ table_keys → valid_table (dict_get k (PList []) c).
Proof.
  intros Hc Hk. unfold dict_get. destruct (c !! k) as [v|] eqn:E; simpl.
  - by eapply Hc.
  - exists []. split; [done|]. intros _. constructor.
Qed.

Lemma tolist_zeros n : tolist (np_zeros [n]) = PList (replicate n (PFloat 0)).
Proof.
  rewrite np_zeros_1d. unfold tolist. simpl. f_equal.
  apply list_eq. intros i. rewrite list_lookup_fmap.
  destruct (decide (i < n)) as [Hi|Hi].
  - rewrite lookup_seq_lt, lookup_replicate_2 by done. simpl.
    rewrite Nat.mul_1_r.
    assert (take 1 (drop i (replicate n (SFloat 0))) = [SFloat 0]) as ->; [|done].
    apply list_eq. intros [|j]; simpl.
    + rewrite lookup_take_lt, lookup_drop, lookup_replicate_2 by lia. done.
    + rewrite lookup_take_ge by lia. done.
  - rewrite lookup_seq_ge by lia. simpl. symmetry. apply lookup_replicate_None. lia.
Qed.

Lemma to_config_lookup (m : MDP) :
  to_config m !! "mode" = Some (PStr (mode_tag (cls m))) ∧
  to_config m !! "transition" = Some (tolist (transition m)) ∧
  to_config m !! "reward" = Some (tolist (reward m)) ∧
  to_config m !! "terminal" = Some (tolist (terminal m)) ∧
  dom (to_config m) = config_keys.
Proof.
  unfold to_config, StochasticMDP_to_config, DeterministicMDP_to_config, config_keys.
  destruct (cls m); repeat split;
    try (by repeat (rewrite lookup_insert_eq || rewrite lookup_insert_ne by done));
    rewrite !dom_insert_L; set_solver.
Qed.

Lemma config_keys_elem k :
  k ∈ config_keys ↔ k = "mode" ∨ k = "transition" ∨ k = "reward" ∨ k = "terminal".
Proof. unfold config_keys. rewrite !elem_of_union, !elem_of_singleton. tauto. Qed.

Section RoundTrip.
Context {G : Type} `{RandomSource G}.

(** What [to_config(from_config(c))] is, entry by entry. *)
Lemma round_trip_entries (c : Config) (g : G) :
  valid_config c →
  ∃ m vt vr vd,
    from_config c g = (Ok m, g) ∧
    dom (to_config m) = config_keys ∧
    to_config m !! "mode" = c !! "mode" ∧
    to_config m !! "transition" = Some vt ∧
    pyval_eqv vt (dict_get "transition" (PList []) c) ∧
    to_config m !! "reward" = Some vr ∧
    pyval_eqv vr (dict_get "reward" (PList []) c) ∧
    to_config m !! "terminal" = Some vd ∧
    (terminal_empty c → vd = PList (replicate (states_of c) (PFloat 0))) ∧
    (¬ terminal_empty c → pyval_eqv vd (dict_get "terminal" (PList []) c)).
Proof.
  intros [Hmode Htables [S [rest Haxis]] Hrandom].
  destruct (tolist_np_array _ (valid_table_get c "transition" Htables ltac:(set_solver)))
    as (tr & Htr & Htr').
  destruct (tolist_np_array _ (valid_table_get c "reward" Htables ltac:(set_solver)))
    as (rw & Hrw & Hrw').
  destruct (tolist_np_array _ (valid_table_get c "terminal" Htables ltac:(set_solver)))
    as (tm & Htm & Htm').
  assert (∃ cl, c !! "mode" = Some (PStr (mode_tag cl))) as [cl Hcl].
  { destruct Hmode; [by exists Deterministic|by exists Stochastic]. }
  assert (shape tr !! 0 = Some S) as HS.
  { by rewrite (np_array_shape _ _ Htr), Haxis. }
  destruct (from_config_ok c g cl tr rw tm S Hcl Htr Hrw Htm HS)
    as (m & g' & Hrun & Hcls & Hterm & _ & Hsame).
  destruct (Hsame Hrandom) as (-> & Htrm & Hrwm).
  destruct (to_config_lookup m) as (Hk1 & Hk2 & Hk3 & Hk4 & Hdom).
  exists m, (tolist (transition m)), (tolist (reward m)), (tolist (terminal m)).
  rewrite Htrm, Hrwm, Hk1, Hcls.
  repeat split; try done.
  - by rewrite Htrm in Hk2.
  - by rewrite Hrwm in Hk3.
  - intros Hempty. unfold terminal_empty in Hempty.
    rewrite Hterm, bool_decide_eq_true_2.
    + rewrite tolist_zeros. unfold states_of. by rewrite Haxis.
    + unfold np_size. by rewrite (np_array_shape _ _ Htm).
  - intros Hempty. unfold terminal_empty in Hempty.
    rewrite Hterm, bool_decide_eq_false_2; [done|].
    unfold np_size. by rewrite (np_array_shape _ _ Htm).
Qed.

(** C3, amended.  For every valid configuration [c] (recognized mode,
    numeric tables, whose integers are exact as floats where numpy
    converts the table to float64, a transition table with a first axis,
    no request to randomize), [from_config] returns a
    model without drawing from the random source, and
    [to_config(from_config(c))] has exactly the keys [mode],
    [transition], [reward] and [terminal]: its [mode] is the mode of
    [c]; its [transition] and [reward] are equal in value to those of
    [c] (to the empty sequence for an absent one); its [terminal] is
    equal in value to that of [c] when [c] supplies a non-empty one and
    is the sequence of [S] zeros otherwise.  So when [c] has, apart from
    [random], exactly these four keys and a non-empty [terminal], the
    result equals [c] with [random] stripped. *)
Theorem C3_round_trip_with_terminal_default (c : Config) (g : G) :
  valid_config c →
  ∃ m,
    from_config c g = (Ok m, g) ∧
    dom (to_config m) = config_keys ∧
    to_config m !! "mode" = c !! "mode" ∧
    option_Forall2 pyval_eqv (to_config m !! "transition")
      (Some (dict_get "transition" (PList []) c)) ∧
    option_Forall2 pyval_eqv (to_config m !! "reward")
      (Some (dict_get "reward" (PList []) c)) ∧
    (terminal_empty c →
     to_config m !! "terminal" = Some (PList (replicate (states_of c) (PFloat 0)))) ∧
    (¬ terminal_empty c →
     option_Forall2 pyval_eqv (to_config m !! "terminal")
       (Some (dict_get "terminal" (PList []) c))) ∧
    (dom (delete "random" c) = config_keys → ¬ terminal_empty c →
     config_eqv (to_config m) (delete "random" c)).
Proof.
  intros Hvalid.
  destruct (round_trip_entries c g Hvalid)
    as (m & vt & vr & vd & Hrun & Hdom & Hmode & Ht & Ht' & Hr & Hr' & Hd & Hd0 & Hd').
  exists m. rewrite Ht, Hr, Hd.
  split; [done|]. split; [done|]. split; [done|].
  split; [by constructor|]. split; [by constructor|].
  split; [by intros ->%Hd0|]. split; [intros ?; constructor; by apply Hd'|].
  intros Hkeys Hne k.
  destruct (decide (k ∈ config_keys)) as [Hk|Hk].
  - assert ("random" ≠ k) as Hnr.
    { apply config_keys_elem in Hk. by destruct Hk as [-> | [-> | [-> | ->]]]. }
    assert (is_Some (c !! k)) as [v Hv].
    { rewrite <- Hkeys in Hk. apply elem_of_dom in Hk.
      by rewrite lookup_delete_ne in Hk. }
    rewrite lookup_delete_ne by done.
    assert (∀ key, c !! key = Some v → dict_get key (PList []) c = v) as Hget.
    { intros key Hkey. unfold dict_get. by rewrite Hkey. }
    apply config_keys_elem in Hk. destruct Hk as [-> | [-> | [-> | ->]]].
    + rewrite Hmode, Hv. constructor. destruct Hvalid as [[Hm|Hm] _ _ _];
        rewrite Hm in Hv; injection Hv as <-; constructor.
    + rewrite Ht, Hv. constructor. by rewrite (Hget _ Hv) in Ht'.
    + rewrite Hr, Hv. constructor. by rewrite (Hget _ Hv) in Hr'.
    + rewrite Hd, Hv. constructor. specialize (Hd' Hne). by rewrite (Hget _ Hv) in Hd'.
  - assert (to_config m !! k = None) as -> by (apply not_elem_of_dom; by rewrite Hdom).
    assert (delete "random" c !! k = None) as -> by (apply not_elem_of_dom; by rewrite Hkeys).
    constructor.
Qed.

End RoundTrip.

Ltac solve_valid_tables :=
  let k := fresh "k" in
  let v := fresh "v" in
  let Hin := fresh "Hin" in
  let Hv := fresh "Hv" in
  intros k v Hin Hv;
  apply list_elem_of_In in Hin; simpl in Hin;
  destruct Hin as [<- | [<- | [<- | []]]];
  vm_compute in Hv; try discriminate;
  injection Hv as <-;
  (eexists; split; [reflexivity|]); intros _;
  repeat (apply Forall_cons; split; [by vm_compute|]);
  apply Forall_nil_2.

Lemma default_config_valid : valid_config default_config.
Proof.
  split.
  - by left.
  - solve_valid_tables.
  - by exists 1, [1].
  - reflexivity.
Qed.

Lemma scenario_config_valid : valid_config scenario_config.
Proof.
  split.
  - by left.
  - solve_valid_tables.
  - by exists 2, [1].
  - reflexivity.
Qed.

(** A table of integers alone is valid whatever their size. *)
Lemma large_config_valid : valid_config large_config.
Proof.
  split.
  - by left.
  - intros k v Hin Hv.
    apply list_elem_of_In in Hin; simpl in Hin.
    destruct Hin as [<- | [<- | [<- | []]]];
      vm_compute in Hv; injection Hv as <-;
      (eexists; split; [reflexivity|]); intros [Hk|[Hneg _]];
      try (vm_compute in Hk; discriminate Hk);
      (apply Exists_cons in Hneg as [(z & Hz & Hlt)|Hn];
       [injection Hz as <-; lia | by apply Exists_nil in Hn]).
  - by exists 1, [1].
  - reflexivity.
Qed.

(** With [random] set the tables are drawn afresh whatever the random
    source: the reward 5 of [random_config] never comes back. *)
Lemma random_config_round_trip G (R : RandomSource G) (g : G) :
  ∃ m g', from_config random_config g = (Ok m, g') ∧
          ¬ config_eqv (to_config m) (delete "random" random_config).
Proof.
  set (m0 := mk_MDP Deterministic (scalar_array (SInt 0))
               (mk_ndarray [1; 1] [SInt 0]) (mk_ndarray [1; 1] [SInt 5])
               (mk_ndarray [1] [SInt 1])).
  destruct (randomize_frame m0 g) as (m & g' & Hrun & Hcls & _ & _ & [Hsh Hlen] & Hall).
  { intros _. discriminate. }
  exists m, g'. split.
  - rewrite (from_config_run random_config g
               (mk_ndarray [1; 1] [SInt 0]) (mk_ndarray [1; 1] [SInt 5])
               (mk_ndarray [1] [SInt 1])) by reflexivity.
    change (call_on m0 randomize g = (Ok m, g')).
    unfold call_on. by rewrite Hrun.
  - intros Heq. specialize (Heq "reward").
    destruct (to_config_lookup m) as (_ & _ & Hr & _). rewrite Hr in Heq.
    unfold tolist in Heq. simpl in Hsh, Hlen. rewrite Hsh in Heq.
    destruct (data (reward m)) as [|x [|??]]; try done.
    apply Forall_cons in Hall as [(q & -> & Hq0 & Hq1) _].
    vm_compute in Heq.
    inversion Heq as [v1 v2 Hv|]; subst.
    inversion Hv as [| | |l1 l2 Hl]; subst.
    inversion Hl as [|x1 x2 l1' l2' Hx _]; subst.
    inversion Hx as [| | |r1 r2 Hy]; subst.
    inversion Hy as [|y1 y2 r1' r2' Hz _]; subst.
    inversion Hz as [|a1 a2 Ha| |]; subst.
    unfold scalar_eqv in Ha. simpl in Ha. rewrite Ha in Hq1.
    by vm_compute in Hq1.
Qed.

(** The round trip as the specification states it fails in three ways.
    The default configuration of the environment has no [terminal] entry:
    the model gets the default one and [to_config] emits it.  A
    configuration with [random] set gets new tables: its reward 5 is
    replaced by a draw from [[0, 1)].  A table that holds an integer
    beside a float is converted to float64: the reward 2^53 + 1 of
    [lossy_config] comes back as the float 2^53, which is another
    number. *)
Lemma C3_counterexample :
  (valid_config default_config ∧
   ∃ m, from_config default_config 42%Z = (Ok m, 42%Z) ∧
        default_config !! "terminal" = None ∧
        to_config m !! "terminal" = Some (PList [PFloat 0]) ∧
        ¬ config_eqv (to_config m) (delete "random" default_config)) ∧
  (∃ m g', from_config random_config 42%Z = (Ok m, g') ∧
           ¬ config_eqv (to_config m) (delete "random" random_config)) ∧
  (∃ m, from_config lossy_config 42%Z = (Ok m, 42%Z) ∧
        to_config m !! "reward"
        = Some (PList [PList [PFloat (inject_Z 9007199254740992); PFloat 0.5]]) ∧
        ¬ config_eqv (to_config m) (delete "random" lossy_config)).
Proof.
  split; [|split].
  - split; [exact default_config_valid|].
    eexists. split; [reflexivity|]. split; [reflexivity|]. split; [reflexivity|].
    intros Heq. specialize (Heq "terminal"). vm_compute in Heq. inversion Heq.
  - eexists _, _. split; [vm_compute; reflexivity|].
    intros Heq. specialize (Heq "reward"). vm_compute in Heq.
    inversion Heq as [v1 v2 Hv|]; subst.
    inversion Hv as [| | |l1 l2 Hl]; subst.
    inversion Hl as [|x1 x2 l1' l2' Hx _]; subst.
    inversion Hx as [| | |r1 r2 Hr]; subst.
    inversion Hr as [|y1 y2 r1' r2' Hy _]; subst.
    inversion Hy as [|a1 a2 Ha| |]; subst.
    vm_compute in Ha. discriminate.
  - eexists. split; [reflexivity|]. split; [reflexivity|].
    intros Heq. specialize (Heq "reward"). vm_compute in Heq.
    inversion Heq as [v1 v2 Hv|]; subst.
    inversion Hv as [| | |l1 l2 Hl]; subst.
    inversion Hl as [|x1 x2 l1' l2' Hx _]; subst.
    inversion Hx as [| | |r1 r2 Hr]; subst.
    inversion Hr as [|y1 y2 r1' r2' Hy _]; subst.
    inversion Hy as [|a1 a2 Ha| |]; subst.
    vm_compute in Ha. discriminate.
Qed.

Ltac key_present :=
  rewrite lookup_insert_eq; split; [intros _; auto 6|intros _; eauto].

Lemma C3_witness :
  (∃ m, from_config scenario_config 42%Z = (Ok m, 42%Z) ∧
        config_eqv (to_config m) (delete "random" scenario_config)) ∧
  (∃ m, from_config large_config 42%Z = (Ok m, 42%Z) ∧
        option_Forall2 pyval_eqv (to_config m !! "reward")
          (Some (PList [PList [PInt 9007199254740993]]))).
Proof.
  split; cycle 1.
  { destruct (C3_round_trip_with_terminal_default large_config 42%Z
                large_config_valid)
      as (m & Hrun & _ & _ & _ & Hrw & _).
    exists m. split; [exact Hrun|exact Hrw]. }
  destruct (C3_round_trip_with_terminal_default scenario_config 42%Z
              scenario_config_valid)
    as (m & Hrun & _ & _ & _ & _ & _ & _ & Heqv).
  exists m. split; [exact Hrun|]. apply Heqv.
  - apply set_eq. intros k. rewrite config_keys_elem, elem_of_dom.
    unfold scenario_config.
    destruct (decide (k = "random")) as [->|Hr].
    { rewrite lookup_delete_eq. split; [by intros [??]|]. by intros [?|[?|[?|?]]]. }
    rewrite lookup_delete_ne by done.
    destruct (decide (k = "mode")) as [->|H1]; [key_present|].
    rewrite lookup_insert_ne by done.
    destruct (decide (k = "transition")) as [->|H2]; [key_present|].
    rewrite lookup_insert_ne by done.
    destruct (decide (k = "reward")) as [->|H3]; [key_present|].
    rewrite lookup_insert_ne by done.
    destruct (decide (k = "terminal")) as [->|H4]; [key_present|].
    rewrite lookup_insert_ne, lookup_empty by done.
    split; [by intros [??]|]. by intros [?|[?|[?|?]]].
  - unfold terminal_empty. by vm_compute.
Defined.
(* ------------------------------------------------------------------ *)
(** * What a step leaves alone *)

Lemma to_config_set_state x (m : MDP) : to_config (set_state x m) = to_config m.
Proof. done. Qed.

Section StepFrame.
Context {G : Type} `{RandomSource G}.

(** The outcomes of [choice] with [p]: it raises before drawing, or draws
    one sample. *)
Lemma rng_choice_p_cases n p (g : G) :
  (∃ e, rng_choice_p n p g = (Raise e, g)) ∨
  (∃ r, rng_choice_p n p g = (r, (random_sample g).2)).
Proof.
  unfold rng_choice_p.
  repeat (case_bool_decide; [left; by eexists|]).
  destruct (existsb _ _); [left; by eexists|].
  destruct (negb _); [left; by eexists|].
  right. destruct (random_sample g) as [u g']. simpl.
  case_bool_decide; by eexists.
Qed.

(** X1. A step of either class assigns [state] only: the class and the
    three tables of the model are the same after it, whether it returns or
    raises; and when it returns, the state it returns is the new state of
    the model and [info] is the serialization of the model as it was
    before the call. *)
Theorem step_frame (m : MDP) (g : G) (action : Z) :
  let out := step action (m, g) in
  cls out.2.1 = cls m ∧
  transition out.2.1 = transition m ∧
  reward out.2.1 = reward m ∧
  terminal out.2.1 = terminal m ∧
  ∀ s r d info, out.1 = Ok (s, r, d, info) →
                state out.2.1 = s ∧ info = to_config m.
Proof.
  unfold step. simpl. destruct m as [c st tr rw tm]. simpl.
  destruct c.
  - unfold DeterministicMDP_step, on_self. unfold_monad. simpl.
    destruct (index_of st) as [s|]; [|done]. simpl.
    destruct (getitem rw _) as [r|]; [|done].
    destruct (getitem tm _) as [d|]; [|done].
    destruct (getitem tr _) as [t|]; [|done]. simpl.
    do 4 (split; [done|]). by intros ???? [= <- _ _ <-].
  - unfold StochasticMDP_step, on_self, on_rng. unfold_monad. simpl.
    destruct (index_of st) as [s|]; [|done]. simpl.
    destruct (getitem rw _) as [r|]; [|done].
    destruct (getitem tr _) as [rowa|]; [|done]. simpl.
    destruct (shape rowa) as [|k0 sh0]; [done|]. simpl.
    destruct (getitem tm _) as [d|]; [|done].
    destruct (shape_at _ 0) as [n0|]; [|done]. simpl.
    destruct (rng_choice_p n0 rowa g) as [[t|e] g']; simpl; [|done].
    do 4 (split; [done|]). by intros ???? [= <- _ _ <-].
Qed.
End StepFrame.

(* ------------------------------------------------------------------ *)
(** * A step that raises *)

Lemma getitem_at_wf ix : ∀ sh d a,
  length d = product sh → getitem_at sh d ix = Ok a →
  length (data a) = product (shape a).
Proof.
  induction ix as [|i ix IH]; intros sh d a Hd; simpl.
  - intros Ha. destruct sh; simpl in Ha; by simplify_eq.
  - destruct sh as [|n sh]; simpl; [done|]. unfold_monad.
    destruct (norm_index n i) as [j|] eqn:Hj; [|done].
    apply IH. apply norm_index_Ok in Hj. by eapply length_chunk.
Qed.

Lemma nonneg_existsb (p : list scalar) :
  existsb (λ x, negb (Qle_bool 0 x)) (value <$> p) = false →
  Forall (λ x, (0 <= value x)%Q) p.
Proof.
  induction p as [|x p IH]; [done|]. rewrite fmap_cons. cbn [existsb].
  intros [Hx Hp]%orb_false_elim. constructor; [|by apply IH].
  apply negb_false_iff in Hx. by apply Qle_bool_iff.
Qed.

(** [choice] raises before drawing, or has checked that [p] is a
    distribution over the [n] states. *)
Lemma rng_choice_p_checked {G} `{RandomSource G} n p (g : G) :
  length (data p) = product (shape p) →
  (∃ e, rng_choice_p n p g = (Raise e, g)) ∨
  (0 < n ∧ shape p = [n] ∧ distribution n (data p)).
Proof.
  intros Hwf. unfold rng_choice_p.
  case_bool_decide as Hn; [left; by eexists|].
  case_bool_decide as Hdim; [left; by eexists|].
  case_bool_decide as Hsize; [left; by eexists|].
  destruct (existsb _ _) eqn:Hneg; [left; by eexists|].
  destruct (negb _) eqn:Hsum; [left; by eexists|].
  right. unfold np_size in Hsize.
  assert (shape p = [n]) as Hsh.
  { destruct (shape p) as [|k [|??]]; simpl in *; try lia. f_equal. lia. }
  split; [lia|]. split; [done|]. split.
  - rewrite Hwf, Hsh. simpl. lia.
  - by apply nonneg_existsb.
  - apply negb_false_iff in Hsum. by apply Qle_bool_iff.
Qed.

Section StepAtomic.
Context {G : Type} `{RandomSource G}.

Lemma rng_choice_p_raise n p (g : G) e g' :
  length (data p) = product (shape p) →
  rng_choice_p n p g = (Raise e, g') → g' = g.
Proof.
  intros Hwf Hrun.
  destruct (rng_choice_p_checked n p g Hwf) as [[e' He']|(Hn & Hsh & Hdist)].
  - rewrite He' in Hrun. by injection Hrun as _ <-.
  - assert (p = mk_ndarray [n] (data p)) as Hp.
    { destruct p as [sh d]. simpl in *. by subst sh. }
    rewrite Hp in Hrun.
    destruct (rng_choice_p_distribution n (data p) g Hn Hdist) as [_ Hok].
    rewrite Hok in Hrun. done.
Qed.

(** X2. A step that raises has changed nothing: the model, its state
    included, and the random source are as before the call.  For the
    stochastic class the transition table is assumed to hold as many
    entries as its shape says. *)
Theorem step_raise_unchanged (m : MDP) (g : G) (action : Z) e w :
  (cls m = Stochastic → length (data (transition m)) = product (shape (transition m))) →
  step action (m, g) = (Raise e, w) → w = (m, g).
Proof.
  intros Hwf. unfold step. simpl. destruct m as [c st tr rw tm]. simpl in *.
  destruct c.
  - unfold DeterministicMDP_step, on_self. unfold_monad. simpl.
    destruct (index_of st) as [s|]; [|by intros [= _ <-]]. simpl.
    destruct (getitem rw _) as [r|]; [|by intros [= _ <-]].
    destruct (getitem tm _) as [d|]; [|by intros [= _ <-]].
    destruct (getitem tr _) as [t|]; [|by intros [= _ <-]]. done.
  - specialize (Hwf eq_refl).
    unfold StochasticMDP_step, on_self, on_rng. unfold_monad. simpl.
    destruct (index_of st) as [s|]; [|by intros [= _ <-]]. simpl.
    destruct (getitem rw _) as [r|]; [|by intros [= _ <-]].
    destruct (getitem tr _) as [rowa|] eqn:Hrow; [|by intros [= _ <-]]. simpl.
    destruct (shape rowa) as [|k0 sh0] eqn:Hsh; [by intros [= _ <-]|]. simpl.
    destruct (getitem tm _) as [d|]; [|by intros [= _ <-]].
    destruct (shape_at _ 0) as [n0|]; [|by intros [= _ <-]]. simpl.
    destruct (rng_choice_p n0 rowa g) as [[t|e'] g'] eqn:Hchoice; simpl; [done|].
    intros [= _ <-]. f_equal.
    eapply rng_choice_p_raise; [|exact Hchoice].
    by eapply getitem_at_wf.
Qed.
End StepAtomic.

Lemma step_raise_unchanged_witness :
  (step 5 (scenario_mdp, 42%Z)).1 = Raise (IndexError "index out of bounds") ∧
  (step 5 (scenario_mdp, 42%Z)).2 = (scenario_mdp, 42%Z).
Proof.
  split; [reflexivity|].
  apply (step_raise_unchanged scenario_mdp 42%Z 5
           (IndexError "index out of bounds") (step 5 (scenario_mdp, 42%Z)).2).
  - intros Hc. discriminate Hc.
  - reflexivity.
Defined.

(* ------------------------------------------------------------------ *)
(** * Actions out of range *)

Lemma norm_index_wrap n i :
  (- Z.of_nat n ≤ i < 0)%Z → norm_index n i = norm_index n (i + Z.of_nat n).
Proof.
  intros Hi. unfold norm_index.
  rewrite (bool_decide_eq_false_2 (0 ≤ i < _)%Z) by lia.
  rewrite (bool_decide_eq_true_2 (- _ ≤ i < 0)%Z) by lia.
  by rewrite (bool_decide_eq_true_2 (0 ≤ i + _ < _)%Z) by lia.
Qed.

Lemma norm_index_out n i :
  (i < - Z.of_nat n ∨ Z.of_nat n ≤ i)%Z →
  norm_index n i = Raise (IndexError "index out of bounds").
Proof.
  intros Hi. unfold norm_index.
  by rewrite !bool_decide_eq_false_2 by lia.
Qed.

Lemma getitem2_wrap S A a s i :
  shape a = [S; A] → (- Z.of_nat A ≤ i < 0)%Z →
  getitem a [s; i] = getitem a [s; (i + Z.of_nat A)%Z].
Proof.
  intros Hsh Hi. unfold getitem. rewrite Hsh. simpl.
  by rewrite (norm_index_wrap A i).
Qed.

Lemma getitem2_out S A a s i :
  shape a = [S; A] → s < S → (i < - Z.of_nat A ∨ Z.of_nat A ≤ i)%Z →
  getitem a [Z.of_nat s; i] = Raise (IndexError "index out of bounds").
Proof.
  intros Hsh Hs Hi. unfold getitem. rewrite Hsh. simpl.
  rewrite norm_index_nat by done. unfold_monad.
  by rewrite norm_index_out.
Qed.

Section ActionBounds.
Context {G : Type} `{RandomSource G}.

(** X3. On a well-formed deterministic model in a state [s < S], an
    action below [-A] or from [A] on makes [step] raise IndexError and
    leave the model as it was; a negative action from [-A] on counts from
    the end of the action axis: the step is the step of [action + A]. *)
Theorem det_step_action_bounds (S A : nat) (m : MDP) (g : G) (s : nat) (action : Z) :
  det_wf S A m → state m = scalar_array (SInt (Z.of_nat s)) → s < S →
  ((action < - Z.of_nat A ∨ Z.of_nat A ≤ action)%Z →
   step action (m, g) = (Raise (IndexError "index out of bounds"), (m, g))) ∧
  ((- Z.of_nat A ≤ action < 0)%Z →
   step action (m, g) = step (action + Z.of_nat A) (m, g)).
Proof.
  intros [Hc [Ht _] [Hr _] _] Hst Hs. unfold step. simpl. rewrite Hc.
  unfold DeterministicMDP_step, on_self. unfold_monad. simpl. rewrite Hst. simpl.
  split; intros Ha.
  - by rewrite (getitem2_out S A) by done.
  - by rewrite (getitem2_wrap S A (reward m)), (getitem2_wrap S A (transition m)) by done.
Qed.
End ActionBounds.

Lemma det_step_action_bounds_witness :
  step 1 (scenario_mdp, 42%Z)
  = (Raise (IndexError "index out of bounds"), (scenario_mdp, 42%Z)) ∧
  step (-1) (scenario_mdp, 42%Z) = step (-1 + Z.of_nat 1) (scenario_mdp, 42%Z).
Proof.
  destruct (det_step_action_bounds 2 1 scenario_mdp 42%Z 0 1
              scenario_mdp_wf eq_refl ltac:(lia)) as [Hout _].
  destruct (det_step_action_bounds 2 1 scenario_mdp 42%Z 0 (-1)
              scenario_mdp_wf eq_refl ltac:(lia)) as [_ Hwrap].
  split; [apply Hout; lia|apply Hwrap; lia].
Defined.

(* ------------------------------------------------------------------ *)
(** * The support of a sampled transition *)

Section Support.
Variables (L u : Q).
Hypothesis HL : (0 < L)%Q.




End Support.


Section StoSupport.
Context {G : Type} `{RandomSource G}.

End StoSupport.



(* ------------------------------------------------------------------ *)
(** * Rows that are no distribution *)

Lemma existsb_negative (p : list scalar) :
  Exists (λ x, (value x < 0)%Q) p →
  existsb (λ x, negb (Qle_bool 0 x)) (value <$> p) = true.
Proof.
  induction 1 as [x p Hx|x p _ IH]; rewrite fmap_cons; cbn [existsb].
  - apply orb_true_intro. left. apply negb_true_iff, not_true_is_false.
    intros Hle%Qle_bool_iff. lra.
  - by rewrite IH, orb_true_r.
Qed.

Section BadRows.
Context {G : Type} `{RandomSource G}.

(** X5. The stochastic step checks the row it samples from.  On a model
    with tables of shapes S x A x S, S x A and S, in a state [s < S] with
    an action [a < A]: when the row [transition[s, a, :]] has a negative
    entry, [step] raises "probabilities are not non-negative"; when its
    entries are non-negative, add up in float64 without rounding (whole
    multiples of some 2^-j, at most 2^53 of them in all) and their sum is
    further than 2^-26 from 1, [step] raises "probabilities do not sum
    to 1".  In both cases the model and the random source are as before.
    The sign of an entry is the same for the float and its value; the sum
    is the float64 sum only on rows without rounding, so the second case
    is stated for those. *)
Theorem sto_step_rejects_bad_row (S A : nat) (m : MDP) (g : G) (s a j : nat) :
  cls m = Stochastic →
  has_shape [S; A; S] (transition m) → has_shape [S; A] (reward m) →
  has_shape [S] (terminal m) →
  state m = scalar_array (SInt (Z.of_nat s)) → s < S → a < A →
  let p := row S A (transition m) s a in
  (Exists (λ x, (value x < 0)%Q) p →
   step (Z.of_nat a) (m, g)
   = (Raise (ValueError "probabilities are not non-negative"), (m, g))) ∧
  (Forall (λ x, (0 <= value x)%Q) p →
   float_exact_row j (value <$> p) →
   ¬ (Qabs (Qsum (value <$> p) - 1) <= choice_atol)%Q →
   step (Z.of_nat a) (m, g)
   = (Raise (ValueError "probabilities do not sum to 1"), (m, g))).
Proof.
  intros Hc Ht Hr Hd Hst Hs Ha p.
  assert (s * A + a < product [S; A]) as Hlt by (simpl; nia).
  destruct (has_shape_lookup _ _ _ Hr Hlt) as [r Hr'].
  destruct (has_shape_lookup [S] _ s Hd) as [d Hd']; [simpl; lia|].
  assert (step (Z.of_nat a) (m, g)
          = match rng_choice_p S (mk_ndarray [S] p) g with
            | (Ok next, g') =>
                (Ok (next, scalar_array r, scalar_array d,
                     to_config (set_state next m)), (set_state next m, g'))
            | (Raise e, g') => (Raise e, (m, g'))
            end) as ->.
  { unfold step. simpl. rewrite Hc.
    unfold StochasticMDP_step, on_self, on_rng, shape_at. unfold_monad. simpl.
    rewrite Hst. simpl.
    erewrite getitem2 by done.
    erewrite getitem_row by done. simpl.
    erewrite getitem1 by done.
    destruct Ht as [Hsh _]. rewrite Hsh. simpl. fold p.
    by destruct (rng_choice_p S _ g) as [[?|?] ?]. }
  unfold rng_choice_p, np_size. cbn [shape data].
  rewrite bool_decide_eq_false_2 by lia.
  rewrite bool_decide_eq_false_2 by (simpl; lia).
  rewrite bool_decide_eq_false_2 by (simpl; lia).
  split.
  - intros Hneg. by rewrite existsb_negative.
  - intros Hpos _ Hsum. rewrite existsb_nonneg by done.
    assert (Qle_bool (Qabs (Qsum (value <$> p) - 1)) choice_atol = false) as ->; [|done].
    apply not_true_is_false. by intros Hle%Qle_bool_iff.
Qed.
End BadRows.

Lemma sto_step_rejects_bad_row_witness :
  step (Z.of_nat 0) (set_state (scalar_array (SInt (Z.of_nat 1))) unnormalized_mdp, 42%Z)
  = (Raise (ValueError "probabilities are not non-negative"),
     (set_state (scalar_array (SInt (Z.of_nat 1))) unnormalized_mdp, 42%Z)) ∧
  float_exact_row 2 [0.5; 0.25]%Q ∧
  step (Z.of_nat 0) (unnormalized_mdp, 42%Z)
  = (Raise (ValueError "probabilities do not sum to 1"), (unnormalized_mdp, 42%Z)).
Proof.
  assert (float_exact_row 2 [0.5; 0.25]%Q) as Hrow.
  { split; [lia|]. split; [|by vm_compute].
    apply Forall_cons. split; [by exists 2%Z|].
    apply Forall_cons. split; [by exists 1%Z|]. apply Forall_nil_2. }
  split; [|split; [exact Hrow|]].
  - apply (sto_step_rejects_bad_row 2 1
             (set_state (scalar_array (SInt (Z.of_nat 1))) unnormalized_mdp) 42%Z 1 0 2);
      try done; try lia; try (by split).
    apply Exists_cons_tl, Exists_cons_hd. by vm_compute.
  - apply (sto_step_rejects_bad_row 2 1 unnormalized_mdp 42%Z 0 0 2);
      try done; try lia; try (by split).
    + repeat (apply Forall_cons; split; [by vm_compute|]). apply Forall_nil_2.
    + by vm_compute.
Defined.

(* ------------------------------------------------------------------ *)
(** * Randomizing a deterministic model *)

Section DetRandomize.
Context {G : Type} `{RandomSource G}.

(** X6. Randomizing a well-formed deterministic model gives a well-formed
    deterministic model with the same numbers of states and actions,
    whose transition entries are all state indices below [S]; the state
    and [terminal] are kept.  So every step that was in range before is
    in range after. *)
Theorem det_randomize_keeps_wf (S A : nat) (m : MDP) (g : G) :
  det_wf S A m →
  ∃ m' g',
    randomize (m, g) = (Ok (), (m', g')) ∧
    det_wf S A m' ∧ indices_below S (transition m') ∧
    state m' = state m ∧ terminal m' = terminal m.
Proof.
  intros [Hc [Hts Htl] [Hrs Hrl] Hd].
  destruct (rng_choice_range_spec S [A] g) as (d & g1 & Hchoice & Hlen & Hall).
  destruct (rng_rand_spec [S; A] g1) as (d' & g2 & Hrand & Hlen' & Hall').
  unfold randomize. simpl. rewrite Hc.
  unfold DeterministicMDP_randomize, on_rng, on_self, shape_at, np_shape.
  unfold_monad. simpl. rewrite Hts. simpl. rewrite Hchoice. simpl.
  rewrite Hrs, Hrand. simpl.
  eexists _, _. split; [done|]. simpl in *.
  split; [split; simpl; try done; by split|].
  split; [|done]. unfold indices_below. simpl.
  eapply Forall_impl; [exact Hall|].
  intros x (z & -> & Hz). exists (Z.to_nat z). split; [|lia].
  f_equal. lia.
Qed.
End DetRandomize.

Lemma det_randomize_keeps_wf_witness :
  ∃ m' g',
    randomize (scenario_mdp, 42%Z) = (Ok (), (m', g')) ∧
    det_wf 2 1 m' ∧ indices_below 2 (transition m') ∧
    state m' = state scenario_mdp ∧ terminal m' = terminal scenario_mdp.
Proof.
  apply (det_randomize_keeps_wf 2 1 scenario_mdp 42%Z scenario_mdp_wf).
Defined.

(* ------------------------------------------------------------------ *)
(** * Trajectories of a converted model *)

Lemma one_hot_rows_wf S A (m : MDP) nt st :
  det_wf S A m → indices_below S (transition m) →
  one_hot_upto S A (transition m) (S * A) nt →
  sto_wf S A (mk_MDP Stochastic st nt (reward m) (terminal m)).
Proof.
  intros [_ [_ Hl] Hrw Htm] Hidx Hnt. split; simpl; try done; try apply Hnt.
  intros s a Hs Ha.
  assert (s * A + a < length (data (transition m))) as Hp.
  { rewrite Hl. simpl. nia. }
  destruct (target_lookup _ _ _ Hidx Hp) as [_ Ht].
  rewrite (one_hot_upto_row _ _ _ _ s a Hnt Hs Ha Ht).
  by apply one_hot_distribution.
Qed.

Section Trajectory.
Context {G : Type} `{RandomSource G}.

Lemma converted_run S A (m : MDP) nt (actions : list nat) :
  det_wf S A m → indices_below S (transition m) →
  one_hot_upto S A (transition m) (S * A) nt →
  Forall (λ a, a < A) actions →
  ∀ (s : nat) (g1 g2 : G), s < S →
    ∃ obs w1 w2,
      run_model (Z.of_nat <$> actions)
        (set_state (scalar_array (SInt (Z.of_nat s))) m, g1) = (Ok obs, w1) ∧
      run_model (Z.of_nat <$> actions)
        (mk_MDP Stochastic (scalar_array (SInt (Z.of_nat s))) nt
           (reward m) (terminal m), g2) = (Ok obs, w2) ∧
      length obs = length actions.
Proof.
  intros Hwf Hidx Hnt. induction 1 as [|a actions Ha Hacts IH]; intros s g1 g2 Hs.
  - by eexists [], _, _.
  - set (here := set_state (scalar_array (SInt (Z.of_nat s))) m).
    assert (det_wf S A here) as Hwf1 by (by destruct Hwf).
    destruct (det_step_in_range S A here g1 s a Hwf1 eq_refl Hs Ha)
      as (r & d & x & Hr & Hd & Hx & Hstep1).
    assert (s * A + a < length (data (transition m))) as Hp.
    { by apply lookup_lt_is_Some. }
    destruct (target_lookup _ _ _ Hidx Hp) as [Hx' Ht].
    simpl in Hx. rewrite Hx in Hx'. injection Hx' as ->.
    set (t := target (transition m) (s * A + a)) in *.
    pose proof (one_hot_rows_wf S A m nt (scalar_array (SInt (Z.of_nat s)))
                  Hwf Hidx Hnt) as Hwf2.
    destruct (sto_step_in_range S A _ g2 s a Hwf2 eq_refl Hs Ha)
      as (r' & d' & Hr2 & Hd2 & _ & Hstep2).
    simpl in Hr, Hd, Hr2, Hd2. rewrite Hr in Hr2. rewrite Hd in Hd2.
    injection Hr2 as <-. injection Hd2 as <-.
    simpl in Hstep2.
    rewrite (one_hot_upto_row _ _ _ _ s a Hnt Hs Ha Ht) in Hstep2. fold t in Hstep2.
    rewrite sample_index_one_hot in Hstep2 by (done || apply random_sample_range).
    destruct (IH t g1 (random_sample g2).2 Ht) as (obs & w1 & w2 & Hrun1 & Hrun2 & Hlen).
    eexists (_ :: obs), w1, w2.
    rewrite fmap_cons. cbn [run_model]. unfold_monad.
    fold here. rewrite Hstep1, Hstep2.
    unfold here, set_state in *. simpl in *. rewrite Hrun1, Hrun2.
    repeat split. simpl. by rewrite Hlen.
Qed.

(** X7. A deterministic model and its conversion by [from_deterministic]
    have the same trajectories.  The converted model starts in state 0
    whatever the state of the original; once it is put in the state of the
    original, every sequence of in-range actions runs on both without
    raising and returns the same sequence of [(next_state, reward, done)],
    whatever the random sources. *)
Theorem from_deterministic_same_trajectory
    (S A : nat) (m : MDP) (s : nat) (actions : list nat) (g1 g2 : G) :
  det_wf S A m → indices_below S (transition m) →
  state m = scalar_array (SInt (Z.of_nat s)) → s < S →
  Forall (λ a, a < A) actions →
  ∃ sm obs w1 w2,
    from_deterministic m = Ok sm ∧
    state sm = scalar_array (SInt 0) ∧
    sto_wf S A sm ∧
    run_model (Z.of_nat <$> actions) (m, g1) = (Ok obs, w1) ∧
    run_model (Z.of_nat <$> actions) (set_state (state m) sm, g2) = (Ok obs, w2) ∧
    length obs = length actions.
Proof.
  intros Hwf Hidx Hst Hs Hacts.
  destruct (from_deterministic_ok S A m Hwf Hidx) as (nt & Hfrom & Hnt).
  destruct (converted_run S A m nt actions Hwf Hidx Hnt Hacts s g1 g2 Hs)
    as (obs & w1 & w2 & Hrun1 & Hrun2 & Hlen).
  eexists _, obs, w1, w2. split; [exact Hfrom|]. split; [done|].
  split; [by apply one_hot_rows_wf|].
  assert (set_state (scalar_array (SInt (Z.of_nat s))) m = m) as Hm.
  { destruct m. simpl in *. by subst. }
  rewrite Hm in Hrun1. rewrite Hst. by repeat split.
Qed.
End Trajectory.

Lemma from_deterministic_same_trajectory_witness :
  ∃ sm obs w1 w2,
    from_deterministic scenario_mdp = Ok sm ∧
    state sm = scalar_array (SInt 0) ∧
    sto_wf 2 1 sm ∧
    run_model (Z.of_nat <$> [0; 0; 0]) (scenario_mdp, 42%Z) = (Ok obs, w1) ∧
    run_model (Z.of_nat <$> [0; 0; 0]) (set_state (state scenario_mdp) sm, 7%Z)
    = (Ok obs, w2) ∧
    length obs = length [0; 0; 0].
Proof.
  apply (from_deterministic_same_trajectory 2 1 scenario_mdp 0 [0; 0; 0] 42%Z 7%Z
           scenario_mdp_wf scenario_indices eq_refl).
  - lia.
  - repeat (apply Forall_cons; split; [lia|]). apply Forall_nil_2.
Defined.

(* ------------------------------------------------------------------ *)
(** * Conversions that raise *)

Lemma for_each_ok_or_raise {X B} (P : B → Prop) (body : X → B → res B) e l :
  ∀ acc,
    P acc →
    (∀ x b, x ∈ l → P b → (∃ b', body x b = Ok b' ∧ P b') ∨ body x b = Raise e) →
    (∃ acc', for_each l body acc = Ok acc' ∧ P acc') ∨ for_each l body acc = Raise e.
Proof.
  induction l as [|x l IH]; intros acc Hacc Hbody; simpl.
  - left. by exists acc.
  - destruct (Hbody x acc) as [(b' & -> & Hb')| ->];
      [apply elem_of_cons; by left|done| |by right].
    unfold_monad. apply IH; [done|]. intros y b Hy. apply Hbody.
    apply elem_of_cons. by right.
Qed.

Lemma for_each_raise {X B} (P : B → Prop) (body : X → B → res B) e l :
  ∀ acc,
    P acc →
    (∀ x b, x ∈ l → P b → (∃ b', body x b = Ok b' ∧ P b') ∨ body x b = Raise e) →
    (∃ x, x ∈ l ∧ ∀ b, P b → body x b = Raise e) →
    for_each l body acc = Raise e.
Proof.
  induction l as [|x l IH]; intros acc Hacc Hbody (y & Hy & Hraise).
  - by apply elem_of_nil in Hy.
  - simpl. destruct (Hbody x acc) as [(b' & Hrun & Hb')|Hrun];
      [apply elem_of_cons; by left|done| |]; rewrite Hrun; [|done].
    unfold_monad. apply elem_of_cons in Hy as [->|Hy].
    + rewrite (Hraise acc Hacc) in Hrun. done.
    + apply IH; [done| |by exists y]. intros z b Hz. apply Hbody.
      apply elem_of_cons. by right.
Qed.

(** X8. [from_deterministic] checks the table it converts only through
    the indexing it does.  On a transition table with fewer than two axes
    it raises IndexError on the shape tuple.  On a well-formed model with
    integer entries one of which lies outside [[-S, S)] it raises
    IndexError "index out of bounds" and returns no model. *)
Theorem from_deterministic_raises (S A : nat) (m : MDP) :
  (length (shape (transition m)) < 2 →
   from_deterministic m = Raise (IndexError "tuple index out of range")) ∧
  (det_wf S A m →
   Forall (λ x, ∃ z, x = SInt z) (data (transition m)) →
   Exists (λ x, ∃ z, x = SInt z ∧ (z < - Z.of_nat S ∨ Z.of_nat S ≤ z)%Z)
     (data (transition m)) →
   from_deterministic m = Raise (IndexError "index out of bounds")).
Proof.
  split.
  - intros Hsh. unfold from_deterministic, shape_at.
    destruct (shape (transition m)) as [|n [|k sh]]; simpl in *; try done. lia.
  - intros [_ [Hsh Hlen] _ _] Hint Hbad.
    unfold from_deterministic, shape_at. rewrite Hsh. simpl. unfold_monad.
    set (e := IndexError "index out of bounds").
    set (inner := λ (s a : nat) (new_transition : ndarray),
           match getitem (transition m) [Z.of_nat s; Z.of_nat a] with
           | Ok x =>
               match py_int x with
               | Ok i => setitem new_transition [Z.of_nat s; Z.of_nat a; i] (SFloat 1)
               | Raise e0 => Raise e0
               end
           | Raise e0 => Raise e0
           end).
    set (P := λ nt : ndarray, shape nt = [S; A; S]).
    assert (∀ s a nt, s < S → a < A → P nt →
              ∃ z, data (transition m) !! (s * A + a) = Some (SInt z) ∧
                   (((- Z.of_nat S ≤ z < Z.of_nat S)%Z ∧
                     ∃ nt', inner s a nt = Ok nt' ∧ P nt') ∨
                    ((z < - Z.of_nat S ∨ Z.of_nat S ≤ z)%Z ∧ inner s a nt = Raise e)))
      as Hinner.
    { intros s a nt Hs Ha Hnt.
      assert (s * A + a < length (data (transition m))) as Hp.
      { rewrite Hlen. simpl. nia. }
      apply lookup_lt_is_Some in Hp as [x Hx].
      rewrite Forall_lookup in Hint. destruct (Hint _ _ Hx) as [z ->].
      exists z. split; [done|]. unfold inner.
      erewrite getitem2 by done. simpl.
      unfold setitem. rewrite Hnt. simpl. rewrite !norm_index_nat by done.
      unfold_monad.
      destruct (decide (- Z.of_nat S ≤ z < Z.of_nat S)%Z) as [Hz|Hz].
      - left. split; [done|]. unfold norm_index.
        case_bool_decide; [by eexists|].
        rewrite bool_decide_eq_true_2 by lia. by eexists.
      - right. split; [lia|]. by rewrite norm_index_out by lia. }
    assert (∀ s nt, s < S → P nt →
              (∃ nt', for_each (seq 0 A) (inner s) nt = Ok nt' ∧ P nt') ∨
              for_each (seq 0 A) (inner s) nt = Raise e) as Hrow.
    { intros s nt Hs Hnt. apply (for_each_ok_or_raise P); [done|].
      intros a b [_ Ha]%elem_of_seq Hb. simpl in Ha.
      destruct (Hinner s a b Hs Ha Hb) as (z & _ & [[_ ?]|[_ ?]]); [by left|by right]. }
    apply Exists_exists in Hbad as (x & Hx & z & -> & Hz).
    apply list_elem_of_lookup in Hx as [p Hp].
    assert (p < S * A) as Hlt.
    { apply lookup_lt_Some in Hp. rewrite Hlen in Hp. simpl in Hp. lia. }
    assert (0 < A) as HA by nia.
    assert (p / A < S) as Hs by (apply Nat.Div0.div_lt_upper_bound; lia).
    assert (p mod A < A) as Ha by (apply Nat.mod_upper_bound; lia).
    assert (p = p / A * A + p mod A) as Hpq.
    { rewrite (Nat.div_mod_eq p A) at 1. lia. }
    assert (for_each (seq 0 S) (λ s, for_each (seq 0 A) (inner s))
              (np_zeros [S; A; S]) = Raise e) as Hloop;
      [|unfold inner in Hloop; cbv beta in Hloop; by rewrite Hloop].
    apply (for_each_raise P (λ s, for_each (seq 0 A) (inner s)) e).
    + done.
    + intros s b [_ Hs']%elem_of_seq Hb. simpl in Hs'. by apply Hrow.
    + exists (p / A). split; [apply elem_of_seq; lia|].
      intros b Hb. apply (for_each_raise P); [done| |].
      * intros a b' [_ Ha']%elem_of_seq Hb'. simpl in Ha'.
        destruct (Hinner (p / A) a b' Hs Ha' Hb') as (z' & _ & [[_ ?]|[_ ?]]);
          [by left|by right].
      * exists (p mod A). split; [apply elem_of_seq; lia|].
        intros b' Hb'.
        destruct (Hinner (p / A) (p mod A) b' Hs Ha Hb') as (z' & Hz' & Hcase).
        rewrite <- Hpq, Hp in Hz'. injection Hz' as <-.
        destruct Hcase as [[? _]|[_ ?]]; [lia|done].
Qed.

Lemma from_deterministic_raises_witness :
  from_deterministic dangling_mdp = Raise (IndexError "index out of bounds").
Proof.
  apply (proj2 (from_deterministic_raises 2 1 dangling_mdp)).
  - by repeat split.
  - repeat (apply Forall_cons; split; [by eexists|]). apply Forall_nil_2.
  - apply Exists_cons_tl, Exists_cons_hd. exists 2%Z. split; [done|]. lia.
Defined.

(* ------------------------------------------------------------------ *)
(** * From a model to a configuration and back *)

Lemma join_chunks {X} k n : ∀ d : list X,
  length d = n * k →
  mjoin ((λ i, take k (drop (i * k) d)) <$> seq 0 n) = d.
Proof.
  induction n as [|n IH]; intros d Hd.
  - by destruct d.
  - cbn [seq]. rewrite fmap_cons. simpl. rewrite <- fmap_S_seq, <- list_fmap_compose.
    rewrite <- (take_drop k d) at 2. f_equal.
    rewrite <- (IH (drop k d)) by (rewrite length_drop; lia).
    f_equal. apply list_fmap_ext. intros i j _. simpl.
    by rewrite drop_drop.
Qed.

Lemma leaves_unflatten_inv sh : ∀ d,
  length d = product sh → leaves sh (unflatten sh d) = Some d.
Proof.
  induction sh as [|n sh IH]; intros d Hd; simpl in *.
  - by destruct d as [|x [|??]].
  - rewrite decide_True by by rewrite length_fmap, length_seq.
    rewrite (mapM_Some_2 _ _ ((λ i, take (product sh) (drop (i * product sh) d)) <$> seq 0 n)).
    + simpl. f_equal. by apply join_chunks.
    + apply Forall2_fmap, Forall_Forall2_diag, Forall_forall.
      intros i [_ Hi]%elem_of_seq. simpl in Hi. apply IH. by eapply length_chunk.
Qed.

Lemma shape_of_scalar d : shape_of (unflatten [] d) = [].
Proof. by destruct d. Qed.

Lemma shape_of_unflatten sh : ∀ d,
  plain_shape sh → length d = product sh → shape_of (unflatten sh d) = sh.
Proof.
  induction sh as [|n sh IH]; intros d Hplain Hd.
  - apply shape_of_scalar.
  - cbn [unflatten shape_of]. rewrite length_fmap, length_seq. f_equal.
    destruct n as [|n].
    + simpl in *. destruct sh; [done|]. lia.
    + cbn [seq]. rewrite fmap_cons.
      destruct sh as [|k sh]; [apply shape_of_scalar|].
      destruct Hplain as [_ Hplain]. apply IH; [done|].
      by eapply (length_chunk _ (Datatypes.S n)); [|lia].
Qed.

Lemma result_kind_uniform k d :
  d ≠ [] → Forall (λ x, kind_of x = k) d → result_kind d = k.
Proof.
  intros Hd Hall. induction Hall as [|x d Hx Hall IH]; [done|]. simpl.
  destruct d as [|y d]; [by rewrite Hx; destruct k|].
  rewrite IH by done. rewrite Hx. by destruct k.
Qed.

Lemma cast_same x : cast (kind_of x) x = x.
Proof. by destruct x as [[]| |]. Qed.

Lemma cast_uniform d :
  (∃ k, Forall (λ x, kind_of x = k) d) → cast (result_kind d) <$> d = d.
Proof.
  intros [k Hall]. destruct (decide (d = [])) as [->|Hd]; [done|].
  rewrite (result_kind_uniform k) by done.
  rewrite <- (list_fmap_id d) at 2. apply Forall_fmap_ext.
  eapply Forall_impl; [exact Hall|]. intros x <-. apply cast_same.
Qed.

(** [np.array(a.tolist())] is [a]. *)
Lemma np_array_tolist (a : ndarray) : plain_array a → np_array (tolist a) = Ok a.
Proof.
  intros [Hlen Hplain Hkind]. unfold np_array, tolist.
  rewrite shape_of_unflatten, leaves_unflatten_inv by done.
  rewrite cast_uniform by done. by destruct a.
Qed.

Lemma to_config_random (m : MDP) : to_config m !! "random" = None.
Proof.
  unfold to_config, StochasticMDP_to_config, DeterministicMDP_to_config.
  destruct (cls m); by rewrite !lookup_insert_ne.
Qed.

Section Reload.
Context {G : Type} `{RandomSource G}.

(** X9. Serialization loses the current state and nothing else.  For a
    model whose tables are arrays as [np.array] makes them and whose
    [terminal] is not empty, [from_config(m.to_config())] returns, without
    drawing, the model [m] itself put back in state 0: the same class and
    the same three tables. *)
Theorem from_config_to_config (m : MDP) (g : G) :
  plain_array (transition m) → plain_array (reward m) → plain_array (terminal m) →
  np_size (terminal m) ≠ 0 →
  from_config (to_config m) g = (Ok (set_state (scalar_array (SInt 0)) m), g).
Proof.
  intros Ht Hr Hd Hsize.
  destruct (to_config_lookup m) as (Hk1 & Hk2 & Hk3 & Hk4 & _).
  rewrite (from_config_run _ g (transition m) (reward m) (terminal m));
    try (unfold dict_get; rewrite ?Hk2, ?Hk3, ?Hk4; simpl; by apply np_array_tolist).
  unfold dict_get. rewrite Hk1, to_config_random. simpl.
  unfold DeterministicMDP, StochasticMDP. rewrite !DeterministicMDP__init__run.
  rewrite bool_decide_eq_false_2 by done.
  by destruct m as [[] ????].
Qed.
End Reload.

(** X10. [update] with the serialization of another model copies its
    tables: for a model [m2] whose tables are arrays as [np.array] makes
    them, [m1.update(m2.to_config())] does not raise and leaves [m1] with
    the three tables of [m2], its own state and its own class. *)
Theorem update_to_config (m1 m2 : MDP) :
  plain_array (transition m2) → plain_array (reward m2) → plain_array (terminal m2) →
  update (to_config m2) m1
  = (Ok (), mk_MDP (cls m1) (state m1) (transition m2) (reward m2) (terminal m2)).
Proof.
  intros Ht Hr Hd.
  destruct (to_config_lookup m2) as (_ & Hk2 & Hk3 & Hk4 & _).
  unfold update. rewrite Hk2, Hk3, Hk4. unfold_monad.
  by rewrite !np_array_tolist.
Qed.

(** X11. Two updates in a row are one update with the merged
    configuration, the later entries winning: for partial configurations
    [c1] and [c2] whose table entries are numeric arrays,
    [m.update(c1); m.update(c2)] has, on every model, the effect of
    [m.update] with [c1] updated by [c2]. *)
Theorem update_update (c1 c2 : Config) (m : MDP) :
  numeric_tables c1 → numeric_tables c2 →
  ∃ m1, update c1 m = (Ok (), m1) ∧ update c2 m1 = update (c2 ∪ c1) m.
Proof.
  intros Hc1 Hc2.
  assert (∀ c, numeric_tables c → ∀ k, k ∈ ["transition"; "reward"; "terminal"] →
               match c !! k with
               | Some v => ∃ a, np_array v = Ok a
               | None => True
               end) as Hk.
  { intros c Hc k Hin. destruct (c !! k) eqn:E; [by eapply Hc|done]. }
  pose proof (Hk c1 Hc1 "transition" ltac:(set_solver)) as H11.
  pose proof (Hk c1 Hc1 "reward" ltac:(set_solver)) as H12.
  pose proof (Hk c1 Hc1 "terminal" ltac:(set_solver)) as H13.
  pose proof (Hk c2 Hc2 "transition" ltac:(set_solver)) as H21.
  pose proof (Hk c2 Hc2 "reward" ltac:(set_solver)) as H22.
  pose proof (Hk c2 Hc2 "terminal" ltac:(set_solver)) as H23.
  unfold update. rewrite !lookup_union. unfold_monad.
  destruct (c1 !! "transition") as [v11|]; [destruct H11 as [a11 E11]|];
    (destruct (c1 !! "reward") as [v12|]; [destruct H12 as [a12 E12]|]);
    (destruct (c1 !! "terminal") as [v13|]; [destruct H13 as [a13 E13]|]);
    (destruct (c2 !! "transition") as [v21|]; [destruct H21 as [a21 E21]|]);
    (destruct (c2 !! "reward") as [v22|]; [destruct H22 as [a22 E22]|]);
    (destruct (c2 !! "terminal") as [v23|]; [destruct H23 as [a23 E23]|]);
    simpl; rewrite ?E11, ?E12, ?E13, ?E21, ?E22, ?E23; simpl;
    (eexists; split; [reflexivity|]); simpl;
    rewrite ?E11, ?E12, ?E13, ?E21, ?E22, ?E23; reflexivity.
Qed.

Lemma scenario_tables_plain :
  plain_array (transition scenario_mdp) ∧ plain_array (reward scenario_mdp) ∧
  plain_array (terminal scenario_mdp).
Proof.
  repeat split; try done; try (simpl; lia); exists KInt;
    repeat (apply Forall_cons; split; [done|]); apply Forall_nil_2.
Qed.

Lemma from_config_to_config_witness :
  from_config (to_config scenario_mdp) 42%Z
  = (Ok (set_state (scalar_array (SInt 0)) scenario_mdp), 42%Z).
Proof.
  destruct scenario_tables_plain as (Ht & Hr & Hd).
  apply (from_config_to_config scenario_mdp 42%Z Ht Hr Hd). by vm_compute.
Defined.

Lemma update_to_config_witness :
  update (to_config scenario_mdp) scenario_sto
  = (Ok (), mk_MDP (cls scenario_sto) (state scenario_sto)
              (transition scenario_mdp) (reward scenario_mdp) (terminal scenario_mdp)).
Proof.
  destruct scenario_tables_plain as (Ht & Hr & Hd).
  apply (update_to_config scenario_sto scenario_mdp Ht Hr Hd).
Defined.

Ltac solve_numeric_tables :=
  let k := fresh "k" in
  let v := fresh "v" in
  let Hin := fresh "Hin" in
  let Hv := fresh "Hv" in
  intros k v Hin Hv;
  apply list_elem_of_In in Hin; simpl in Hin;
  destruct Hin as [<- | [<- | [<- | []]]];
  vm_compute in Hv; try discriminate;
  injection Hv as <-; eexists; reflexivity.

Lemma first_config_numeric : numeric_tables first_config.
Proof. solve_numeric_tables. Qed.

Lemma second_config_numeric : numeric_tables second_config.
Proof. solve_numeric_tables. Qed.

Lemma update_update_witness :
  ∃ m1, update first_config scenario_mdp = (Ok (), m1) ∧
        update second_config m1 = update (second_config ∪ first_config) scenario_mdp.
Proof.
  apply (update_update first_config second_config scenario_mdp
           first_config_numeric second_config_numeric).
Defined.

(* ------------------------------------------------------------------ *)
(** * configure *)

Section Configure.
Context {G : Type} `{RandomSource G}.

(** X12. [configure(c)] merges [c] into the stored configuration and
    builds the model anew from the result.  When the merged configuration
    has a recognized mode, numeric tables, a transition table with a first
    axis of length [S] and no request to randomize, the new model has the
    class the merged mode names, state 0 and the merged tables, and the
    observation space has [S] values; the step counter and the random
    source are as they were.  With a second axis of length [A] the action
    space has [A] values and the call returns; with one axis only the call
    raises IndexError after the new model and the observation space are
    in place, and the action space is the old one. *)
Theorem configure_rebuilds (c : Config) (env : FiniteMDP G) cl tr rw tm (S : nat) rest :
  let merged := c ∪ config env in
  merged !! "mode" = Some (PStr (mode_tag cl)) →
  np_array (dict_get "transition" (PList []) merged) = Ok tr →
  np_array (dict_get "reward" (PList []) merged) = Ok rw →
  np_array (dict_get "terminal" (PList []) merged) = Ok tm →
  shape tr = S :: rest →
  truthy (dict_get "random" (PBool false) merged) = false →
  let m := mk_MDP cl (scalar_array (SInt 0)) tr rw
             (if bool_decide (np_size tm = 0) then np_zeros [S] else tm) in
  configure c env
  = match rest with
    | A :: _ =>
        (Ok (), mk_FiniteMDP G (np_random env) merged (Some m) (steps env)
                  (Some S) (Some A))
    | [] =>
        (Raise (IndexError "tuple index out of range"),
         mk_FiniteMDP G (np_random env) merged (Some m) (steps env)
           (Some S) (action_space env))
    end.
Proof.
  intros merged Hmode Htr Hrw Htm Hsh Hrandom m.
  assert (shape tr !! 0 = Some S) as HS by by rewrite Hsh.
  destruct (from_config_ok merged (np_random env) cl tr rw tm S Hmode Htr Hrw Htm HS)
    as (m' & g' & Hrun & Hcls & Hterm & Hst & Hsame).
  destruct (Hsame Hrandom) as (-> & Htrm & Hrwm).
  assert (m' = m) as ->.
  { destruct m'. simpl in *. by subst. }
  unfold configure, load_config, shape_at. unfold_monad. simpl.
  fold merged. rewrite Hrun. simpl. rewrite Hsh. simpl.
  by destruct rest.
Qed.

(** X13. [configure(c)] with a merged configuration whose mode is absent
    or unknown raises the unknown-mode error after the stored
    configuration has been merged: the environment keeps its model, its
    spaces, its step counter and its random source, and holds the merged
    configuration. *)
Theorem configure_unknown_mode (c : Config) (env : FiniteMDP G) :
  numeric_tables (c ∪ config env) → ¬ recognized_mode (c ∪ config env) →
  configure c env
  = (Raise unknown_mode,
     mk_FiniteMDP G (np_random env) (c ∪ config env) (mdp env) (steps env)
       (observation_space env) (action_space env)).
Proof.
  intros Hnum Hno.
  destruct (from_config_cases (c ∪ config env) (np_random env) Hnum)
    as [[_ Hrun]|(cl & Hmode & _)].
  - unfold configure, load_config. unfold_monad. simpl. by rewrite Hrun.
  - destruct Hno. unfold recognized_mode. rewrite Hmode. destruct cl; eauto.
Qed.
End Configure.

Lemma configure_rebuilds_witness :
  (∃ m, configure stochastic_config default_env
        = (Ok (), mk_FiniteMDP Z 42%Z (stochastic_config ∪ default_config)
                    (Some m) 0 (Some 2) (Some 1)) ∧
        cls m = Stochastic) ∧
  (∃ m, configure flat_config default_env
        = (Raise (IndexError "tuple index out of range"),
           mk_FiniteMDP Z 42%Z (flat_config ∪ default_config)
             (Some m) 0 (Some 3) (Some 1))).
Proof.
  split.
  - eexists. split; [|shelve].
    apply (configure_rebuilds stochastic_config default_env Stochastic
             (mk_ndarray [2; 1; 2] [SFloat 0.5; SFloat 0.5; SFloat 1; SFloat 0])
             (mk_ndarray [2; 1] [SInt 1; SInt 2])
             (mk_ndarray [0] []) 2 [1; 2]); reflexivity.
    Unshelve. reflexivity.
  - eexists.
    apply (configure_rebuilds flat_config default_env Deterministic
             (mk_ndarray [3] [SInt 0; SInt 0; SInt 0])
             (mk_ndarray [1; 1] [SInt 0])
             (mk_ndarray [0] []) 3 []); reflexivity.
Defined.

Lemma configure_unknown_mode_witness :
  configure absurd_config default_env
  = (Raise unknown_mode,
     mk_FiniteMDP Z 42%Z (absurd_config ∪ default_config) (mdp default_env) 0
       (Some 1) (Some 1)).
Proof.
  apply (configure_unknown_mode absurd_config default_env).
  - intros k v Hin Hv.
    apply list_elem_of_In in Hin; simpl in Hin.
    destruct Hin as [<- | [<- | [<- | []]]];
      vm_compute in Hv; try discriminate; injection Hv as <-; eexists; reflexivity.
  - intros [Hm|Hm]; vm_compute in Hm; discriminate.
Defined.

(* ------------------------------------------------------------------ *)
(** * The step counter *)

Lemma getitem1_scalar n a i r :
  has_shape [n] a → getitem a [i] = Ok r → ∃ x, r = scalar_array x.
Proof.
  intros [Hs Hl]. unfold getitem. rewrite Hs. simpl. unfold_monad.
  destruct (norm_index n i) as [j|] eqn:Hj; [|done]. simpl.
  apply norm_index_Ok in Hj. intros [= <-].
  simpl in Hl.
  destruct (take 1 (drop (j * 1) (data a))) as [|x [|??]] eqn:Hd.
  - apply (f_equal length) in Hd. rewrite length_take, length_drop in Hd.
    cbn [length] in Hd. lia.
  - by exists x.
  - apply (f_equal length) in Hd. rewrite length_take in Hd. cbn [length] in Hd. lia.
Qed.

Lemma py_or_scalar x b : ∃ d, py_or (scalar_array x) b = Ok d.
Proof. unfold py_or, truth. simpl. destruct (nonzero x); eauto. Qed.

Section Counter.
Context {G : Type} `{RandomSource G}.

(** X14. The controller counts the steps that returned.  On a model in
    an integer state, with a one-dimensional terminal table (and, for the
    stochastic class, a transition table that holds as many entries as
    its shape says), a [step] that returns has advanced the counter by
    one, and a [step] that raises has left the whole environment as it
    was: model, state, counter and random source.  The configuration and
    the spaces are kept in both cases.  The state is an integer after
    [reset()] and as long as the transition table holds integers; in a
    boolean or array state numpy selects by mask and the flag [done] is
    no scalar, which is outside this statement. *)
Theorem FiniteMDP_step_counts
    (env : FiniteMDP G) (m : MDP) (S : nat) (s action : Z) :
  mdp env = Some m → state m = scalar_array (SInt s) →
  has_shape [S] (terminal m) →
  (cls m = Stochastic → length (data (transition m)) = product (shape (transition m))) →
  let out := FiniteMDP_step action env in
  match out.1 with
  | Ok _ => steps out.2 = (steps env + 1)%Z
  | Raise _ => out.2 = env
  end ∧
  config out.2 = config env ∧
  observation_space out.2 = observation_space env ∧
  action_space out.2 = action_space env.
Proof.
  intros Hm Hst Hterm Hwf.
  destruct env as [g c om k os as']. simpl in Hm. subst om.
  destruct m as [cl st tr rw tm]. simpl in *. subst st.
  unfold FiniteMDP_step, on_mdp, step. unfold_monad. simpl.
  destruct cl.
  - unfold DeterministicMDP_step, on_self. unfold_monad. simpl.
    destruct (getitem rw _) as [r|]; [|done].
    destruct (getitem tm _) as [d|] eqn:Hd; [|done].
    destruct (getitem tr _) as [t|]; [|done]. simpl.
    destruct (getitem1_scalar _ _ _ _ Hterm Hd) as [x ->].
    destruct (py_or_scalar x (bool_decide (k > MAX_STEPS)%Z)) as [d' ->]. done.
  - specialize (Hwf eq_refl).
    unfold StochasticMDP_step, on_self, on_rng. unfold_monad. simpl.
    destruct (getitem rw _) as [r|]; [|done].
    destruct (getitem tr _) as [rowa|] eqn:Hrow; [|done]. simpl.
    destruct (shape rowa) as [|k0 sh0] eqn:Hsh; [done|]. simpl.
    destruct (getitem tm _) as [d|] eqn:Hd; [|done].
    destruct (shape_at _ 0) as [n0|]; [|done]. simpl.
    destruct (rng_choice_p n0 rowa g) as [[t|e'] g'] eqn:Hchoice; simpl.
    + destruct (getitem1_scalar _ _ _ _ Hterm Hd) as [x ->].
      destruct (py_or_scalar x (bool_decide (k > MAX_STEPS)%Z)) as [d' ->]. done.
    + assert (g' = g) as ->; [|done].
      eapply rng_choice_p_raise; [|exact Hchoice].
      by eapply getitem_at_wf.
Qed.
End Counter.

Lemma FiniteMDP_step_counts_witness :
  (∃ r, (FiniteMDP_step 0 used_env).1 = Ok r) ∧
  steps (FiniteMDP_step 0 used_env).2 = 6%Z ∧
  (∃ e, (FiniteMDP_step 1 used_env).1 = Raise e) ∧
  (FiniteMDP_step 1 used_env).2 = used_env.
Proof.
  assert (has_shape [2] (terminal (set_state (scalar_array (SInt 1)) scenario_mdp)))
    as Hterm by done.
  assert (cls (set_state (scalar_array (SInt 1)) scenario_mdp) = Stochastic →
          length (data (transition (set_state (scalar_array (SInt 1)) scenario_mdp)))
          = product (shape (transition (set_state (scalar_array (SInt 1)) scenario_mdp))))
    as Hwf by done.
  split; [eexists; reflexivity|]. split.
  - exact (proj1 (FiniteMDP_step_counts used_env _ 2 1 0 eq_refl eq_refl Hterm Hwf)).
  - split; [eexists; reflexivity|].
    exact (proj1 (FiniteMDP_step_counts used_env _ 2 1 1 eq_refl eq_refl Hterm Hwf)).
Defined.

(* ------------------------------------------------------------------ *)
(** * Episodes of a deterministic model *)

Lemma det_step_rng_free (m : MDP) (action : Z) :
  cls m = Deterministic →
  ∃ r m', cls m' = Deterministic ∧
    ∀ G (R : RandomSource G) (g : G), step action (m, g) = (r, (m', g)).
Proof.
  intros Hc. destruct m as [cl st tr rw tm]. simpl in Hc. subst cl.
  unfold step, DeterministicMDP_step, on_self. unfold_monad. simpl.
  destruct (index_of st) as [s|]; [|by eexists _, (mk_MDP Deterministic st tr rw tm)]. simpl.
  destruct (getitem rw _) as [r|]; [|by eexists _, (mk_MDP Deterministic st tr rw tm)].
  destruct (getitem tm _) as [d|]; [|by eexists _, (mk_MDP Deterministic st tr rw tm)].
  destruct (getitem tr _) as [t|]; [|by eexists _, (mk_MDP Deterministic st tr rw tm)].
  by eexists _, (mk_MDP Deterministic t tr rw tm).
Qed.

Lemma run_steps_agree {G1 G2} `{RandomSource G1} `{RandomSource G2} actions :
  ∀ (e1 : FiniteMDP G1) (e2 : FiniteMDP G2) m,
  mdp e1 = Some m → mdp e2 = Some m → cls m = Deterministic →
  steps e1 = steps e2 →
  (run_steps actions e1).1 = (run_steps actions e2).1.
Proof.
  induction actions as [|a actions IH]; intros e1 e2 m Hm1 Hm2 Hc Hk; [done|].
  destruct (det_step_rng_free m a Hc) as (r & m' & Hc' & Hstep).
  destruct e1 as [g1 c1 om1 k1 os1 as1], e2 as [g2 c2 om2 k2 os2 as2].
  simpl in *. subst om1 om2 k2.
  unfold FiniteMDP_step, on_mdp. unfold_monad. simpl.
  rewrite !Hstep.
  destruct r as [[[[s rw] d] info]|e]; [|done]. simpl.
  destruct (py_or d _) as [d'|e]; [|done]. simpl.
  match goal with
  | |- (let '(_, _) := run_steps _ ?x in _).1 = (let '(_, _) := run_steps _ ?y in _).1 =>
      specialize (IH x y m' eq_refl eq_refl Hc' eq_refl);
      destruct (run_steps actions x) as [[rs1|?] ?],
               (run_steps actions y) as [[rs2|?] ?]
  end; simpl in *; congruence.
Qed.

(** X15. An episode of a deterministic model depends on the tables and
    the actions only.  Two environments whose deterministic models have the
    same three tables give the same results for the same actions after
    [reset()], value by value and error by error, whatever their current
    states, step counters, configurations and random sources are. *)
Theorem det_episode_repeatable {G1 G2} `{RandomSource G1} `{RandomSource G2}
    (env1 : FiniteMDP G1) (env2 : FiniteMDP G2) (m1 m2 : MDP) (actions : list Z) :
  mdp env1 = Some m1 → mdp env2 = Some m2 →
  cls m1 = Deterministic → cls m2 = Deterministic →
  transition m1 = transition m2 → reward m1 = reward m2 → terminal m1 = terminal m2 →
  (episode actions env1).1 = (episode actions env2).1.
Proof.
  intros Hm1 Hm2 Hc1 Hc2 Htr Hrw Htm.
  unfold episode. unfold_monad.
  rewrite (FiniteMDP_reset_run env1 m1 Hm1), (FiniteMDP_reset_run env2 m2 Hm2).
  assert (set_state (scalar_array (SInt 0)) m1 = set_state (scalar_array (SInt 0)) m2)
    as Heq.
  { destruct m1, m2. unfold set_state. simpl in *. by subst. }
  rewrite Heq.
  by apply (run_steps_agree actions _ _ (set_state (scalar_array (SInt 0)) m2)).
Qed.

Lemma det_episode_repeatable_witness :
  (episode [0; 0; 0]%Z used_env).1 = (episode [0; 0; 0]%Z fresh_env).1 ∧
  ∃ rs, (episode [0; 0; 0]%Z used_env).1 = Ok rs ∧ length rs = 3.
Proof.
  split.
  - apply (det_episode_repeatable used_env fresh_env
             (set_state (scalar_array (SInt 1)) scenario_mdp) scenario_mdp
             [0; 0; 0]%Z); reflexivity.
  - eexists. split; reflexivity.
Defined.

(* ------------------------------------------------------------------ *)
(** * A configuration without rewards *)

Section NoReward.
Context {G : Type} `{RandomSource G}.

(** X16. The [reward] entry is not checked when a model is built.  Let
    [c] be a configuration with a recognized mode and no [reward] entry,
    whose [transition] entry is a numeric array with a first axis, whose
    [terminal] entry, if any, is a numeric array, and whose [random] entry
    is absent or false.  Then [from_config] returns a model, without
    drawing; every [step] on that model, for every action and in either
    class, raises IndexError and leaves the model in its state 0. *)
Theorem from_config_without_reward (c : Config) (g : G) cl tr tm (S : nat) :
  c !! "mode" = Some (PStr (mode_tag cl)) →
  c !! "reward" = None →
  np_array (dict_get "transition" (PList []) c) = Ok tr →
  np_array (dict_get "terminal" (PList []) c) = Ok tm →
  shape tr !! 0 = Some S →
  truthy (dict_get "random" (PBool false) c) = false →
  ∃ m, from_config c g = (Ok m, g) ∧ cls m = cl ∧
       state m = scalar_array (SInt 0) ∧ np_size (reward m) = 0 ∧
       ∀ action (g' : G), ∃ msg,
         step action (m, g') = (Raise (IndexError msg), (m, g')).
Proof.
  intros Hmode Hrw Htr Htm HS Hrandom.
  assert (np_array (dict_get "reward" (PList []) c) = Ok (mk_ndarray [0] [])) as Hrw'.
  { unfold dict_get. by rewrite Hrw. }
  destruct (from_config_ok c g cl tr (mk_ndarray [0] []) tm S Hmode Htr Hrw' Htm HS)
    as (m & g1 & Hrun & Hcls & Hterm & Hst & Hsame).
  destruct (Hsame Hrandom) as (-> & Htrm & Hrwm).
  exists m. do 3 (split; [done|]). split; [by rewrite Hrwm|].
  intros action g'.
  destruct m as [cl' st tr' rw' tm']. simpl in *. subst cl' st rw'.
  exists "index out of bounds".
  unfold step. simpl.
  destruct cl; [unfold DeterministicMDP_step|unfold StochasticMDP_step];
    unfold_monad; reflexivity.
Qed.
End NoReward.

Lemma from_config_without_reward_witness :
  ∃ m, from_config rewardless_config 42%Z = (Ok m, 42%Z) ∧
       ∃ msg, step 0 (m, 42%Z) = (Raise (IndexError msg), (m, 42%Z)).
Proof.
  destruct (from_config_without_reward rewardless_config 42%Z Deterministic
              (mk_ndarray [1; 1] [SInt 0]) (mk_ndarray [0] []) 1
              eq_refl eq_refl eq_refl eq_refl eq_refl eq_refl)
    as (m & Hrun & _ & _ & _ & Hstep).
  exists m. split; [exact Hrun|]. apply Hstep.
Defined.
